(** * Verification of the intelligent hashing auditor (auditor.py)

    A shallow embedding of [should_exclude], [run_audit] and
    [find_duplicates] together with the theorems that relate the code to the
    statements made about it.

    Conventions of the embedding:
    - Python [str] values are Rocq strings; case folding and SQL [LIKE] are
      modelled on ASCII characters.
    - [st_mtime], [last_seen] and [time.time()] are exact numbers ([Z], in
      seconds); the only operations on them are equality, [<] and the
      subtraction of the 3600 second grace window.
    - the table [file_hashes] is the list of its rows in rowid order; the
      database is [None] until [init_db] has created the table.
    - the operating system is a record of oracles ([os.stat], [os.walk], file
      contents) that does not change during one run. *)

From Stdlib Require Import ZArith Ascii String List Lia Bool Sorted.
From stdpp Require Import base tactics option list strings gmap.

Local Open Scope Z_scope.

(** ** Strings *)

Module Str.

(** [str.lower], on ASCII letters. *)
Definition ascii_lower (c : ascii) : ascii :=
  let n := N_of_ascii c in
  if ((65 <=? n) && (n <=? 90))%N then ascii_of_N (n + 32) else c.

Fixpoint lower (s : string) : string :=
  match s with
  | EmptyString => EmptyString
  | String c s' => String (ascii_lower c) (lower s')
  end.

(** [s.startswith(p)]. *)
Fixpoint startswith (p s : string) : bool :=
  match p, s with
  | EmptyString, _ => true
  | String a p', String b s' => bool_decide (a = b) && startswith p' s'
  | String _ _, EmptyString => false
  end.

(** [s.endswith(c)] for a one-character suffix. *)
Fixpoint endswith_char (s : string) (c : ascii) : bool :=
  match s with
  | EmptyString => false
  | String a EmptyString => bool_decide (a = c)
  | String _ s' => endswith_char s' c
  end.

(** [sub in s]. *)
Fixpoint contains (sub s : string) : bool :=
  startswith sub s ||
  match s with
  | EmptyString => false
  | String _ s' => contains sub s'
  end.

(** [s.rfind(c)]: index of the last occurrence of [c], [-1] when absent. *)
Fixpoint rfind (s : string) (c : ascii) : Z :=
  match s with
  | EmptyString => -1
  | String a s' =>
      let r := rfind s' c in
      if bool_decide (0 <= r) then 1 + r
      else if bool_decide (a = c) then 0 else -1
  end.

(** [s[:n]] and [s[n:]] for [0 <= n]. *)
Fixpoint take (n : nat) (s : string) : string :=
  match n, s with
  | S n', String a s' => String a (take n' s')
  | _, _ => EmptyString
  end.

Fixpoint drop (n : nat) (s : string) : string :=
  match n, s with
  | S n', String _ s' => drop n' s'
  | _, _ => s
  end.

(** [s[i:j]] for [0 <= i]. *)
Definition slice (i j : Z) (s : string) : string :=
  take (Z.to_nat (j - i)) (drop (Z.to_nat i) s).

Fixpoint existsb (f : ascii -> bool) (s : string) : bool :=
  match s with
  | EmptyString => false
  | String a s' => f a || existsb f s'
  end.

End Str.

(** ** Paths: posixpath.join and posixpath.splitext *)

Definition sep : ascii := "/"%char.
Definition extsep : ascii := "."%char.

(** [os.path.join(a, b)] *)
Definition os_path_join (a b : string) : string :=
  if Str.startswith (String sep EmptyString) b then b
  else if bool_decide (a = EmptyString) || Str.endswith_char a sep then a +:+ b
  else a +:+ String sep b.

(** [os.path.splitext(p)]: the extension starts at the last dot of the last
    path component, unless that component has only dots before it. *)
Definition splitext (p : string) : string * string :=
  let sepIndex := Str.rfind p sep in
  let dotIndex := Str.rfind p extsep in
  if bool_decide (dotIndex > sepIndex) then
    if Str.existsb (fun c => negb (bool_decide (c = extsep)))
                   (Str.slice (sepIndex + 1) dotIndex p)
    then (Str.take (Z.to_nat dotIndex) p, Str.drop (Z.to_nat dotIndex) p)
    else (p, EmptyString)
  else (p, EmptyString).

(** ** Configuration and the exclusion predicate *)

(** The two keys of [CONFIG] read by [should_exclude], after the defaults of
    [CONFIG.get(key, [])]. *)
Record Config := {
  EXCLUSIONS : list string;
  EXT_FILTER : list string
}.

Definition should_exclude (cfg : Config) (file_path : string) : bool :=
  let path_lower := Str.lower file_path in
  if List.existsb (fun exclusion => Str.contains (Str.lower exclusion) path_lower)
                  (EXCLUSIONS cfg)
  then true
  else
    let ext_filter := EXT_FILTER cfg in
    match ext_filter with
    | [] => false
    | _ :: _ =>
        let ext := snd (splitext file_path) in
        if bool_decide (Str.lower ext ∈ ext_filter) then false else true
    end.

(** ** SQL [LIKE]

    SQLite's default [LIKE]: [%] matches any run of characters, [_] matches
    any single character, every other pattern character matches itself up to
    ASCII case.  No escape character is in force. *)
Fixpoint sql_like (pat : string) : string -> bool :=
  match pat with
  | EmptyString => fun s => bool_decide (s = EmptyString)
  | String c pat' =>
      if bool_decide (c = "%"%char) then
        fix any_run (s : string) : bool :=
          sql_like pat' s ||
          match s with
          | EmptyString => false
          | String _ s' => any_run s'
          end
      else if bool_decide (c = "_"%char) then
        fun s =>
          match s with
          | EmptyString => false
          | String _ s' => sql_like pat' s'
          end
      else
        fun s =>
          match s with
          | EmptyString => false
          | String d s' =>
              bool_decide (Str.ascii_lower c = Str.ascii_lower d) && sql_like pat' s'
          end
  end.

(** [like_query = f"{target_dir}%"] *)
Definition like_query (target_dir : string) : string := target_dir +:+ "%".

(** ** The record store: table [file_hashes] *)

Inductive Status := active | corrupted | missing.

Global Instance Status_eq_dec : EqDecision Status.
Proof. solve_decision. Defined.

Record FileRecord := mkFileRecord {
  id : Z;
  file_path : string;
  file_name : string;
  file_size : Z;
  mtime : Z;
  sha256_hash : string;
  last_seen : Z;
  status : Status
}.

Global Instance FileRecord_eq_dec : EqDecision FileRecord.
Proof. solve_decision. Defined.

Abbreviation Table := (list FileRecord).

(** Schema constraints: [id] is the primary key and [file_path] is UNIQUE. *)
Definition table_ok (t : Table) : Prop :=
  NoDup (id <$> t) /\ NoDup (file_path <$> t).

(** [CREATE TABLE IF NOT EXISTS]: the database is [None] before the table
    exists. *)
Definition init_db (database : option Table) : Table :=
  match database with
  | Some t => t
  | None => []
  end.

(** [SELECT ... WHERE file_path = ?] followed by [fetchone()]. *)
Definition select_by_path (t : Table) (p : string) : option FileRecord :=
  List.find (fun r => bool_decide (file_path r = p)) t.

(** [SELECT id, file_path ... WHERE sha256_hash = ? AND file_size = ?] *)
Definition select_by_hash_size (t : Table) (h : string) (sz : Z) : Table :=
  filter (fun r => sha256_hash r = h /\ file_size r = sz) t.

(** [UPDATE file_hashes SET ... WHERE id = ?] for a statement that does not
    assign [file_path]. *)
Definition update_by_id (t : Table) (i : Z) (f : FileRecord -> FileRecord) : Table :=
  (fun r => if bool_decide (id r = i) then f r else r) <$> t.

(** [UPDATE ... SET last_seen = ?, status = 'active'] *)
Definition touch (now : Z) (r : FileRecord) : FileRecord :=
  mkFileRecord (id r) (file_path r) (file_name r) (file_size r) (mtime r)
               (sha256_hash r) now active.

(** [UPDATE ... SET sha256_hash = ?, last_seen = ?, status = 'corrupted'] *)
Definition flag_corrupted (new_hash : string) (now : Z) (r : FileRecord) : FileRecord :=
  mkFileRecord (id r) (file_path r) (file_name r) (file_size r) (mtime r)
               new_hash now corrupted.

(** [UPDATE ... SET file_size = ?, mtime = ?, sha256_hash = ?, last_seen = ?,
    status = 'active'] *)
Definition store_modified (sz mt : Z) (new_hash : string) (now : Z)
    (r : FileRecord) : FileRecord :=
  mkFileRecord (id r) (file_path r) (file_name r) sz mt new_hash now active.

(** [UPDATE ... SET file_path = ?, file_name = ?, mtime = ?, last_seen = ?,
    status = 'active'] *)
Definition retarget (p name : string) (mt now : Z) (r : FileRecord) : FileRecord :=
  mkFileRecord (id r) p name (file_size r) mt (sha256_hash r) now active.

(** [UPDATE ... SET status = 'missing'] *)
Definition mark_missing (r : FileRecord) : FileRecord :=
  mkFileRecord (id r) (file_path r) (file_name r) (file_size r) (mtime r)
               (sha256_hash r) (last_seen r) missing.

(** The move statement assigns the UNIQUE column: SQLite raises
    [IntegrityError] ([None]) when another row already holds the path. *)
Definition update_retarget (t : Table) (i : Z) (p name : string) (mt now : Z)
    : option Table :=
  if List.existsb (fun r => bool_decide (file_path r = p /\ id r <> i)) t
  then None
  else Some (update_by_id t i (retarget p name mt now)).

(** AUTOINCREMENT: one more than the largest rowid (no row is ever deleted). *)
Definition next_id (t : Table) : Z :=
  1 + foldr Z.max 0 (id <$> t).

(** [INSERT INTO file_hashes (file_path, file_name, file_size, mtime,
    sha256_hash, last_seen)]; [status] takes its default ['active'].
    [None] is the [IntegrityError] of the UNIQUE constraint. *)
Definition insert_record (t : Table) (p name : string) (sz mt : Z)
    (h : string) (now : Z) : option Table :=
  if List.existsb (fun r => bool_decide (file_path r = p)) t
  then None
  else Some (t ++ [mkFileRecord (next_id t) p name sz mt h now active]).

(** [UPDATE file_hashes SET status = 'missing' WHERE file_path = ?] *)
Definition update_missing (t : Table) (p : string) : Table :=
  (fun r => if bool_decide (file_path r = p) then mark_missing r else r) <$> t.

(** ** The operating system *)

Record stat_result := {
  st_isdir : bool;
  st_size : Z;
  st_mtime : Z
}.

(** [os_stat p] is [None] when [os.stat(p)] raises; [os_walk top] lists, in
    traversal order, each visited directory with its non-directory entries;
    [read_file p] is [None] when opening or reading raises [IOError];
    [sha256] is [hashlib.sha256(...).hexdigest()]. *)
Record World := {
  CONFIG : Config;
  os_stat : string -> option stat_result;
  os_walk : string -> list (string * list string);
  read_file : string -> option (list Byte.byte);
  sha256 : list Byte.byte -> string
}.

Definition os_path_exists (w : World) (p : string) : bool :=
  match os_stat w p with
  | Some _ => true
  | None => false
  end.

Definition os_path_isdir (w : World) (p : string) : bool :=
  match os_stat w p with
  | Some st => st_isdir st
  | None => false
  end.

Definition calculate_sha256 (w : World) (p : string) : option string :=
  sha256 w <$> read_file w p.

(** ** The audit *)

(** The [stats] dictionary. *)
Definition new_stats : gmap string nat :=
  list_to_map
    [("scanned", 0%nat); ("skipped_unchanged", 0%nat); ("new_files", 0%nat);
     ("modified_files", 0%nat); ("moved_files", 0%nat);
     ("bitrot_detected", 0%nat); ("removed_files", 0%nat); ("errors", 0%nat)].

(** [stats[k] += 1] *)
Definition incr (k : string) (stats : gmap string nat) : gmap string nat :=
  <[k := S (stats !!! k)]> stats.

(** What the bit-rot branch writes to the log: the path, the old hash and
    the new hash. *)
Record BitrotAlert := {
  alert_path : string;
  old_hash : string;
  new_hash_seen : string
}.

(** The state threaded through one run: the table behind the cursor, the
    counters, [bitrot_list], the bit-rot lines of the log, and the paths that
    [calculate_sha256] opened, in order. *)
Record Audit := mkAudit {
  db : Table;
  stats : gmap string nat;
  bitrot_list : list string;
  bitrot_log : list BitrotAlert;
  opened : list string
}.

Definition with_db (t : Table) (a : Audit) : Audit :=
  mkAudit t (stats a) (bitrot_list a) (bitrot_log a) (opened a).

Definition count (k : string) (a : Audit) : Audit :=
  mkAudit (db a) (incr k (stats a)) (bitrot_list a) (bitrot_log a) (opened a).

Definition note_opened (p : string) (a : Audit) : Audit :=
  mkAudit (db a) (stats a) (bitrot_list a) (bitrot_log a) (opened a ++ [p]).

Definition note_bitrot (p old new : string) (a : Audit) : Audit :=
  mkAudit (db a) (stats a) (bitrot_list a ++ [p])
          (bitrot_log a ++ [Build_BitrotAlert p old new]) (opened a).

(** [if not new_hash]: [None] and the empty string are both falsy. *)
Definition truthy_hash (h : option string) : option string :=
  match h with
  | Some EmptyString => None
  | other => other
  end.

(** The branch of the loop body taken when the path has a row. *)
Definition audit_known (w : World) (force_rehash : bool) (current_time : Z)
    (file_path : string) (file_size mtime : Z) (row : FileRecord) (a : Audit)
    : Audit :=
  let '(mkFileRecord db_id _ _ db_size db_mtime db_hash _ _) := row in
  if negb force_rehash && bool_decide (db_size = file_size)
       && bool_decide (db_mtime = mtime)
  then
    count "skipped_unchanged"
      (with_db (update_by_id (db a) db_id (touch current_time)) a)
  else
    let a := note_opened file_path a in
    match truthy_hash (calculate_sha256 w file_path) with
    | None => count "errors" a
    | Some new_hash =>
        if negb force_rehash && bool_decide (db_size = file_size)
             && bool_decide (db_mtime = mtime)
             && negb (bool_decide (new_hash = db_hash))
        then
          with_db
            (update_by_id (db a) db_id (flag_corrupted new_hash current_time))
            (note_bitrot file_path db_hash new_hash (count "bitrot_detected" a))
        else
          count "modified_files"
            (with_db
               (update_by_id (db a) db_id
                  (store_modified file_size mtime new_hash current_time)) a)
    end.

(** [not os.path.exists(mc_path)] for a move candidate. *)
Definition vacated (w : World) (mc : FileRecord) : bool :=
  negb (os_path_exists w (file_path mc)).

(** The branch of the loop body taken when the path has no row. *)
Definition audit_unknown (w : World) (current_time : Z)
    (file_path file : string) (file_size mtime : Z) (a : Audit) : Audit :=
  let a := note_opened file_path a in
  match truthy_hash (calculate_sha256 w file_path) with
  | None => count "errors" a
  | Some new_hash =>
      let move_candidates := select_by_hash_size (db a) new_hash file_size in
      match List.find (vacated w) move_candidates with
      | Some mc =>
          match update_retarget (db a) (id mc) file_path file mtime current_time with
          | Some t => count "moved_files" (with_db t a)
          | None => count "errors" a
          end
      | None =>
          match insert_record (db a) file_path file file_size mtime new_hash
                              current_time with
          | Some t => count "new_files" (with_db t a)
          | None => count "errors" a
          end
      end
  end.

(** The body of [for file in files]; an exception raised inside the [try]
    is counted in [errors]. *)
Definition audit_file (w : World) (force_rehash : bool) (current_time : Z)
    (root file : string) (a : Audit) : Audit :=
  let file_path := os_path_join root file in
  if should_exclude (CONFIG w) file_path then a
  else
    let a := count "scanned" a in
    match os_stat w file_path with
    | None => count "errors" a
    | Some stat_info =>
        let file_size := st_size stat_info in
        let mtime := st_mtime stat_info in
        match select_by_path (db a) file_path with
        | Some row =>
            audit_known w force_rehash current_time file_path file_size mtime row a
        | None =>
            audit_unknown w current_time file_path file file_size mtime a
        end
    end.

(** [for root, dirs, files in os.walk(target_dir): for file in files: ...] *)
Definition traverse (w : World) (force_rehash : bool) (current_time : Z)
    (target_dir : string) (a : Audit) : Audit :=
  foldl (fun a '(root, files) =>
           foldl (fun a file => audit_file w force_rehash current_time root file a)
                 a files)
        a (os_walk w target_dir).

(** [SELECT file_path ... WHERE file_path LIKE ? AND last_seen < ? AND
    status = 'active'] with the bound [current_time - 3600]. *)
Definition select_stale (t : Table) (target_dir : string) (current_time : Z)
    : list string :=
  file_path <$>
    filter (fun r => sql_like (like_query target_dir) (file_path r) = true
                     /\ last_seen r < current_time - 3600
                     /\ status r = active) t.

(** The body of [for mf in missing_files]. *)
Definition reconcile_one (w : World) (a : Audit) (mf : string) : Audit :=
  if negb (os_path_exists w mf)
  then count "removed_files" (with_db (update_missing (db a) mf) a)
  else a.

Definition reconcile (w : World) (target_dir : string) (current_time : Z)
    (a : Audit) : Audit :=
  foldl (reconcile_one w) a (select_stale (db a) target_dir current_time).

(** [run_audit(target_dir, force_rehash)], started at [current_time] on the
    database [database].  The result is the database afterwards and, unless
    the run stopped at the directory check, the final state of the run. *)
Definition run_audit (w : World) (database : option Table)
    (target_dir : string) (force_rehash : bool) (current_time : Z)
    : option Table * option Audit :=
  if negb (os_path_isdir w target_dir) then (database, None)
  else
    let conn := init_db database in
    let a := mkAudit conn new_stats [] [] [] in
    let a := traverse w force_rehash current_time target_dir a in
    let a := reconcile w target_dir current_time a in
    (Some (db a), Some a).

(** ** Duplicate analysis *)

(** One element of the known-duplicates JSON list: an object whose keys
    ['hash'] and ['files'] may be present or not. *)
Record KnownItem := {
  item_hash : option string;
  item_files : option (list string)
}.

(** The loop that fills [known_dupes_map].  [known_data] is [None] when no
    file was given, the file does not exist, it is not valid JSON, or its top
    level is not a list: the map then stays empty. *)
Definition load_known_dupes (known_data : option (list KnownItem))
    : gmap string (gset string) :=
  match known_data with
  | None => ∅
  | Some items =>
      foldl (fun m item =>
               match item_hash item, item_files item with
               | Some h, Some fs => <[h := list_to_set fs]> m
               | _, _ => m
               end) ∅ items
  end.

(** [WHERE file_path LIKE ? AND status = 'active'] *)
Definition in_scope (target_dir : string) (r : FileRecord) : Prop :=
  sql_like (like_query target_dir) (file_path r) = true /\ status r = active.

Global Instance in_scope_dec target_dir r : Decision (in_scope target_dir r).
Proof. unfold in_scope. apply _. Defined.

(** [SELECT sha256_hash, COUNT( * ) as c ... GROUP BY sha256_hash HAVING c > 1].
    SQL leaves the order of the groups open; nothing below depends on it. *)
Definition select_duplicate_hashes (t : Table) (target_dir : string)
    : list (string * nat) :=
  let rows := filter (in_scope target_dir) t in
  filter (fun hc => (1 < hc.2)%nat)
    ((fun h => (h, length (filter (fun r => sha256_hash r = h) rows)))
       <$> remove_dups (sha256_hash <$> rows)).

(** [SELECT file_path, file_size ... WHERE sha256_hash = ? AND
    status = 'active' AND file_path LIKE ?] *)
Definition select_members (t : Table) (target_dir d_hash : string)
    : list (string * Z) :=
  (fun r => (file_path r, file_size r)) <$>
    filter (fun r => sha256_hash r = d_hash /\ in_scope target_dir r) t.

(** ["/Archive/" not in f[0]] *)
Definition not_archived (f : string * Z) : Prop :=
  Str.contains "/Archive/" f.1 = false.

Global Instance not_archived_dec f : Decision (not_archived f).
Proof. unfold not_archived. apply _. Defined.

(** [d_hash in known_dupes_map and
     active_paths_set.issubset(known_dupes_map[d_hash])] *)
Definition known_covers (known_dupes_map : gmap string (gset string))
    (d_hash : string) (active_paths_set : gset string) : bool :=
  match known_dupes_map !! d_hash with
  | Some accepted => bool_decide (active_paths_set ⊆ accepted)
  | None => false
  end.

(** One entry of the JSON report. *)
Record DupGroup := {
  hash : string;
  size_bytes : Z;
  files : list string
}.

(** The three accumulators of the reporting loop. *)
Record DupState := {
  result : list DupGroup;
  total_wasted_space : Z;
  duplicate_count : nat
}.

(** The body of [for (d_hash, count) in duplicate_hashes].  [files] of a
    reported group is [list(active_paths_set)]: the elements of the set in an
    order the code does not control. *)
Definition dup_step (t : Table) (target_dir : string)
    (known_dupes_map : gmap string (gset string))
    (acc : DupState) (d : string * nat) : DupState :=
  let d_hash := d.1 in
  let active_files := filter not_archived (select_members t target_dir d_hash) in
  let active_paths_set : gset string := list_to_set (active_files.*1) in
  if known_covers known_dupes_map d_hash active_paths_set then acc
  else
    match active_files with
    | first :: _ :: _ =>
        let file_size := first.2 in
        let extra := (length active_files - 1)%nat in
        {| result := result acc ++
                     [{| hash := d_hash; size_bytes := file_size;
                         files := elements active_paths_set |}];
           total_wasted_space := total_wasted_space acc + file_size * Z.of_nat extra;
           duplicate_count := (duplicate_count acc + extra)%nat |}
    | _ => acc
    end.

(** [find_duplicates(target_dir, known_dupes_file)]: the database afterwards
    and what the loop leaves in [result], [total_wasted_space] and
    [duplicate_count]. *)
Definition find_duplicates (database : option Table) (target_dir : string)
    (known_data : option (list KnownItem)) : option Table * DupState :=
  let known_dupes_map := load_known_dupes known_data in
  let conn := init_db database in
  let duplicate_hashes := select_duplicate_hashes conn target_dir in
  (Some conn,
   foldl (dup_step conn target_dir known_dupes_map)
         {| result := []; total_wasted_space := 0; duplicate_count := 0 |}
         duplicate_hashes).

(** * Vocabulary of the statements, and sample data *)

(** ** The two rules of the exclusion filter *)

(** The substring rule of [should_exclude]: some configured exclusion, lower
    cased, occurs in the lower-cased path. *)
Definition substring_rule (cfg : Config) (p : string) : Prop :=
  exists e, e ∈ EXCLUSIONS cfg /\
    exists pre post, Str.lower p = pre +:+ Str.lower e +:+ post.

(** The extension rule read literally: the allow-list is non-empty and the
    extension of the path, as it is spelled, is not an element of it. *)
Definition extension_rule_verbatim (cfg : Config) (p : string) : Prop :=
  EXT_FILTER cfg <> [] /\ (splitext p).2 ∉ EXT_FILTER cfg.

(** The extension rule of the code: the extension is lower-cased before it is
    looked up; the entries of the allow-list are taken as they are. *)
Definition extension_rule (cfg : Config) (p : string) : Prop :=
  EXT_FILTER cfg <> [] /\ Str.lower (splitext p).2 ∉ EXT_FILTER cfg.

Definition camera_config : Config :=
  {| EXCLUSIONS := []; EXT_FILTER := [".jpg"] |}.

(** ** Sample data used by the examples *)

Definition rec_A : FileRecord :=
  mkFileRecord 1 "/data/a.bin" "a.bin" 100 10 "H" 50 active.
Definition rec_B : FileRecord :=
  mkFileRecord 2 "/data/sub/b.bin" "b.bin" 100 11 "H" 50 active.
Definition rec_C : FileRecord :=
  mkFileRecord 3 "/data/c.bin" "c.bin" 50 12 "H2" 50 active.

Definition store_ABC : Table := [rec_A; rec_B; rec_C].



(** A world given by finite tables: the entries of the file system with
    their [os.stat] result and, for readable files, their content; and the
    listing [os.walk] produces for each top directory.  The digest is a
    stand-in that spells out the content, so that equal digests mean equal
    contents. *)
Definition table_world (cfg : Config)
    (entries : list (string * (stat_result * option (list Byte.byte))))
    (walks : list (string * list (string * list string))) : World :=
  {| CONFIG := cfg;
     os_stat := fun p => fst <$> (list_to_map entries : gmap string _) !! p;
     os_walk := fun top => default [] ((list_to_map walks : gmap string _) !! top);
     read_file := fun p => (list_to_map entries : gmap string _) !! p ≫= snd;
     sha256 := fun bs => "sha:" +:+ string_of_list_byte bs |}.

Definition a_dir : stat_result * option (list Byte.byte) :=
  ({| st_isdir := true; st_size := 4096; st_mtime := 1 |}, None).

Definition a_file (size mtime : Z) (content : string)
    : stat_result * option (list Byte.byte) :=
  ({| st_isdir := false; st_size := size; st_mtime := mtime |},
   Some (list_byte_of_string content)).

Definition no_rules : Config := {| EXCLUSIONS := []; EXT_FILTER := [] |}.

(** One file "/data/a.txt" whose three bytes changed from "old" to "new"
    while its size and modification time stayed what the store recorded. *)
Definition rotten_world : World :=
  table_world no_rules
    [("/data", a_dir); ("/data/a.txt", a_file 3 100 "new")]
    [("/data", [("/data", ["a.txt"])])].

Definition rotten_store : Table :=
  [mkFileRecord 1 "/data/a.txt" "a.txt" 3 100 "sha:old" 7000 active].

(** ** Invariants of a run *)

(** No row is corrupted and no bit-rot has been reported so far. *)
Definition rot_free (a : Audit) : Prop :=
  (forall r, r ∈ db a -> status r <> corrupted) /\
  stats a !!! "bitrot_detected" = 0%nat /\
  bitrot_list a = [] /\ bitrot_log a = [].

(** A candidate of the move detection for a file with digest [h] and size
    [sz]: same digest, same size, and the recorded path is gone from disk. *)
Definition move_candidate (w : World) (h : string) (sz : Z) (r : FileRecord) : Prop :=
  sha256_hash r = h /\ file_size r = sz /\ os_path_exists w (file_path r) = false.

(** The number of rows stored for a path. *)
Definition rows_at (t : Table) (p : string) : nat :=
  length (filter (fun r => file_path r = p) t).

Global Instance move_candidate_dec w h sz r : Decision (move_candidate w h sz r).
Proof. unfold move_candidate. apply _. Defined.

(** ** Reconciliation *)

(** The rows the reconciliation pass of a run on [target_dir] started at
    [current_time] turns to [missing]: active, selected by the [LIKE] pattern
    of the run, last seen more than 3600 seconds before the start, and with a
    path that is not on disk. *)
Definition goes_missing (w : World) (target_dir : string) (current_time : Z)
    (r : FileRecord) : Prop :=
  status r = active /\
  sql_like (like_query target_dir) (file_path r) = true /\
  last_seen r < current_time - 3600 /\
  os_path_exists w (file_path r) = false.

Global Instance goes_missing_dec w target_dir current_time r :
  Decision (goes_missing w target_dir current_time r).
Proof. unfold goes_missing. apply _. Defined.



(** A directory "/data" next to a directory "/database" that has been
    removed from disk; the store still has a row for a file of the latter. *)
Definition sibling_world : World :=
  table_world no_rules [("/data", a_dir)] [("/data", [("/data", [])])].


(** ** Duplicate groups *)

(** The members of the group of [d_hash]: the rows the second query returns,
    without those of an archive directory ([active_files] in the code). *)
Definition members (t : Table) (target_dir d_hash : string) : list (string * Z) :=
  filter not_archived (select_members t target_dir d_hash).

(** [active_files[0][1]] *)
Definition group_size (ms : list (string * Z)) : Z :=
  match ms with
  | first :: _ => first.2
  | [] => 0
  end.

(** The group appended to [result] for [d_hash]. *)
Definition group_of (t : Table) (target_dir d_hash : string) : DupGroup :=
  {| hash := d_hash;
     size_bytes := group_size (members t target_dir d_hash);
     files := elements (list_to_set (members t target_dir d_hash).*1 : gset string) |}.

(** A group is reported when the known duplicates do not cover it and more
    than one member is left. *)
Definition reported (known_dupes_map : gmap string (gset string)) (t : Table)
    (target_dir d_hash : string) : Prop :=
  known_covers known_dupes_map d_hash
    (list_to_set (members t target_dir d_hash).*1) = false /\
  (1 < length (members t target_dir d_hash))%nat.

Global Instance reported_dec known t target_dir d_hash :
  Decision (reported known t target_dir d_hash).
Proof. unfold reported. apply _. Defined.





(** A known-duplicates file that lists the two paths of [store_ABC] with
    hash "H". *)
Definition known_AB : option (list KnownItem) :=
  Some [{| item_hash := Some "H";
           item_files := Some ["/data/a.bin"; "/data/sub/b.bin"] |}].

(** ** Two runs in a row *)

(** The [(root, file)] pairs the two nested loops of a run visit, in order. *)
Definition walk_entries (w : World) (target_dir : string) : list (string * string) :=
  concat ((fun rf : string * list string => (fun file => (rf.1, file)) <$> rf.2)
            <$> os_walk w target_dir).

(** The paths that reach [stats['scanned'] += 1]. *)
Definition scanned_paths (w : World) (target_dir : string) : list string :=
  filter (fun p => should_exclude (CONFIG w) p = false)
         ((fun e => os_path_join e.1 e.2) <$> walk_entries w target_dir).




Global Instance table_ok_dec t : Decision (table_ok t).
Proof. unfold table_ok. apply _. Defined.

(** ** More sample data *)

(** "/data/old.txt" was renamed to "/data/new.txt"; the store still has the
    row of the old path. *)
Definition renamed_world : World :=
  table_world no_rules
    [("/data", a_dir); ("/data/new.txt", a_file 4 40 "gone")]
    [("/data", [("/data", ["new.txt"])])].

Definition renamed_row : FileRecord :=
  mkFileRecord 1 "/data/old.txt" "old.txt" 4 30 "sha:gone" 100 active.

Definition start_audit (t : Table) : Audit := mkAudit t new_stats [] [] [].

(** * Further vocabulary: whole runs *)

(** The six counters of which the loop body bumps exactly one per scanned
    file. *)
Definition outcomes (s : gmap string nat) : nat :=
  (s !!! "skipped_unchanged" + s !!! "new_files" + s !!! "modified_files"
   + s !!! "moved_files" + s !!! "bitrot_detected" + s !!! "errors")%nat.

(** The paths of the entries [l] that pass the exclusion filter. *)
Definition kept_paths (w : World) (l : list (string * string)) : list string :=
  filter (fun p => should_exclude (CONFIG w) p = false)
         ((fun e => os_path_join e.1 e.2) <$> l).


(** * The extension report (scripts/find_extensions.py) *)

(** A [collections.Counter] with its keys in the order of first insertion. *)
Abbreviation Counter := (list (string * nat)).

(** [c[k] += 1] *)
Fixpoint counter_incr (k : string) (c : Counter) : Counter :=
  match c with
  | [] => [(k, 1%nat)]
  | (k', n) :: c' =>
      if bool_decide (k = k') then (k', S n) :: c' else (k', n) :: counter_incr k c'
  end.

(** [c[k]]: zero for a key that is not there. *)
Fixpoint counter_get (k : string) (c : Counter) : nat :=
  match c with
  | [] => 0%nat
  | (k', n) :: c' => if bool_decide (k = k') then n else counter_get k c'
  end.

(** The key under which one file is counted: its extension in lower case, or
    the marker for files that have none. *)
Definition extension_key (file : string) : string :=
  let ext := (splitext file).2 in
  if bool_decide (ext = EmptyString) then "<no_extension>" else Str.lower ext.

(** The two nested loops: [scanned] and [ext_counts] after the walk. *)
Definition scan_extensions (w : World) (target_dir : string) : nat * Counter :=
  foldl (fun st (rf : string * list string) =>
           foldl (fun (st : nat * Counter) file =>
                    (S st.1, counter_incr (extension_key file) st.2))
                 st rf.2)
        (0%nat, []) (os_walk w target_dir).

(** Where a pair goes in a list sorted by falling count: before the first
    pair whose count is not larger. *)
Fixpoint insert_by_count (x : string * nat) (l : Counter) : Counter :=
  match l with
  | [] => [x]
  | y :: l' =>
      if bool_decide (y.2 <= x.2)%nat then x :: y :: l'
      else y :: insert_by_count x l'
  end.

(** [Counter.most_common()]: the items sorted by falling count, items of
    equal count in the order of first insertion (Python's sort is stable, also
    with [reverse=True]). *)
Definition most_common (c : Counter) : Counter :=
  foldr insert_by_count [] c.

(** What [main] hands to the report file and to the console: the target,
    the number of files, the rows in the order written, and the first fifteen
    of them.  The layout of the lines is not modelled. *)
Record ExtensionReport := {
  report_file : string;
  report_target : string;
  report_total : nat;
  report_rows : Counter;
  report_top : Counter
}.

(** [main()] of find_extensions.py on [sys.argv]; [None] is [sys.exit(1)]. *)
Definition find_extensions_main (w : World) (argv : list string)
    : option ExtensionReport :=
  match argv with
  | _ :: target_dir :: rest =>
      let output_file :=
        match rest with
        | o :: _ => o
        | [] => "extension_report.log"
        end in
      if negb (os_path_isdir w target_dir) then None
      else
        let st := scan_extensions w target_dir in
        Some {| report_file := output_file;
                report_target := target_dir;
                report_total := st.1;
                report_rows := most_common st.2;
                report_top := take 15 (most_common st.2) |}
  | _ => None
  end.

(** The file names [os.walk] lists under [target_dir], in order. *)
Definition walked_files (w : World) (target_dir : string) : list string :=
  concat (snd <$> os_walk w target_dir).

(** A tree with photos of mixed spelling and two files without extension. *)
Definition photo_world : World :=
  table_world no_rules [("/pics", a_dir)]
    [("/pics", [("/pics", ["a.JPG"; "README"; "b.jpg"]);
                ("/pics/raw", ["c.png"; ".hidden"; "d.Jpg"])])].

(** * The rmlint report (scripts/process_dupe_report.py) *)

(** One element of the rmlint JSON list, as far as [parse_rmlint_report]
    looks at it: the keys ['checksum'] and ['path'] may be present or not;
    [item_no] stands for the rest of the element. *)
Record RmItem := {
  rm_checksum : option string;
  rm_path : option string;
  item_no : nat
}.

Global Instance RmItem_eq_dec : EqDecision RmItem.
Proof. solve_decision. Defined.

(** [duplicate_groups[k].append(x)] on a [defaultdict(list)] with its keys
    in the order of first insertion. *)
Fixpoint group_append (k : string) (x : RmItem) (g : list (string * list RmItem))
    : list (string * list RmItem) :=
  match g with
  | [] => [(k, [x])]
  | (k', xs) :: g' =>
      if bool_decide (k = k') then (k', xs ++ [x]) :: g'
      else (k', xs) :: group_append k x g'
  end.

(** The loop of [parse_rmlint_report]. *)
Definition collect_groups (data : list RmItem) : list (string * list RmItem) :=
  foldl (fun g item =>
           match rm_checksum item, rm_path item with
           | Some c, Some _ => group_append c item g
           | _, _ => g
           end) [] data.

(** [parse_rmlint_report], after [json.load]. *)
Definition parse_rmlint_report (data : list RmItem) : list (string * list RmItem) :=
  filter (fun kv => (1 < length kv.2)%nat) (collect_groups data).

(** The items of [data] that are grouped under checksum [k]. *)
Definition items_of (k : string) (data : list RmItem) : list RmItem :=
  filter (fun it => rm_checksum it = Some k /\ is_Some (rm_path it)) data.

(** [duplicate_groups.get(k, [])] *)
Fixpoint group_get (k : string) (g : list (string * list RmItem)) : list RmItem :=
  match g with
  | [] => []
  | (k', xs) :: g' => if bool_decide (k = k') then xs else group_get k g'
  end.

(** A rmlint list: a header without checksum, three files of two contents,
    one entry without path, and a footer. *)
Definition rmlint_sample : list RmItem :=
  [{| rm_checksum := None; rm_path := None; item_no := 0 |};
   {| rm_checksum := Some "aa"; rm_path := Some "/x/1"; item_no := 1 |};
   {| rm_checksum := Some "bb"; rm_path := Some "/x/2"; item_no := 2 |};
   {| rm_checksum := Some "aa"; rm_path := Some "/y/1"; item_no := 3 |};
   {| rm_checksum := Some "bb"; rm_path := None; item_no := 4 |};
   {| rm_checksum := None; rm_path := None; item_no := 5 |}].

(** * Properties *)

(** ** Strings and the exclusion predicate *)

Lemma startswith_spec p s :
  Str.startswith p s = true <-> exists t, s = p +:+ t.
Proof.
  revert s. induction p as [|a p IH]; intros s; simpl.
  - split; [intros _; by exists s | done].
  - destruct s as [|b s].
    + split; [done | intros [t Ht]; discriminate].
    + rewrite andb_true_iff, bool_decide_eq_true, IH. split.
      * intros [-> [t ->]]. by exists t.
      * intros [t Ht]. injection Ht as -> ->. eauto.
Qed.

Lemma contains_spec sub s :
  Str.contains sub s = true <-> exists pre post, s = pre +:+ sub +:+ post.
Proof.
  induction s as [|b s IH]; simpl.
  - rewrite orb_false_r, startswith_spec. split.
    + intros [t Ht]. by exists EmptyString, t.
    + intros [pre [post H]]. destruct pre; [by exists post | discriminate].
  - rewrite orb_true_iff, startswith_spec, IH. split.
    + intros [[t Ht] | [pre [post ->]]].
      * by exists EmptyString, t.
      * by exists (String b pre), post.
    + intros [pre [post H]]. destruct pre as [|c pre]; simpl in H.
      * left. by exists post.
      * right. injection H as -> ->. by exists pre, post.
Qed.

Lemma substring_rule_existsb cfg p :
  List.existsb (fun e => Str.contains (Str.lower e) (Str.lower p)) (EXCLUSIONS cfg) = true
  <-> substring_rule cfg p.
Proof.
  unfold substring_rule. rewrite existsb_exists. split.
  - intros [e [Hin He]]. exists e. split; [by apply list_elem_of_In|].
    by apply contains_spec.
  - intros [e [Hin He]]. exists e. split; [by apply list_elem_of_In|].
    by apply contains_spec.
Qed.

(** C9, as stated, fails: with the allow-list [".jpg"], the path
    "/pics/IMG_1.JPG" has the extension ".JPG", which is not in the list, and
    no substring rule applies, yet [should_exclude] returns [False]. *)
Lemma should_exclude_verbatim_extension_fails :
  ~ (should_exclude camera_config "/pics/IMG_1.JPG" = true <->
     substring_rule camera_config "/pics/IMG_1.JPG" \/
     extension_rule_verbatim camera_config "/pics/IMG_1.JPG").
Proof.
  intros [_ H].
  assert (should_exclude camera_config "/pics/IMG_1.JPG" = true) as Hex;
    [|vm_compute in Hex; discriminate].
  apply H. right. split; [discriminate|].
  vm_compute. intros Hin. apply list_elem_of_In in Hin.
  simpl in Hin. destruct Hin as [Heq | []]. discriminate.
Qed.

(** C9 (amended): [should_exclude] is a function of the configured rules and
    the path alone, and it returns [True] exactly when the lower-cased path
    contains some lower-cased configured substring, or the allow-list is
    non-empty and the lower-cased extension of the path is not in it.  Either
    rule suffices on its own. *)
Theorem should_exclude_iff (cfg : Config) (p : string) :
  should_exclude cfg p = true <-> substring_rule cfg p \/ extension_rule cfg p.
Proof.
  unfold should_exclude, extension_rule.
  destruct (List.existsb _ (EXCLUSIONS cfg)) eqn:Hsub.
  - split; [intros _ | done]. left. by apply substring_rule_existsb.
  - assert (~ substring_rule cfg p) as Hno.
    { rewrite <- substring_rule_existsb. by rewrite Hsub. }
    destruct (EXT_FILTER cfg) as [|x l] eqn:Hf.
    + split; [done | intros [? | [? _]]; done].
    + case_bool_decide as Hin.
      * split; [done | intros [? | [_ ?]]; done].
      * split; [intros _ | done]. right. done.
Qed.

Example test_should_exclude :
  let test_config :=
    {| EXCLUSIONS := [".git/"; "node_modules/"]; EXT_FILTER := [".jpg"; ".mp4"] |} in
  should_exclude test_config "/my/path/.git/config" = true /\
  should_exclude test_config "/my/path/node_modules/index.js" = true /\
  should_exclude test_config "/my/path/src/main.py" = true /\
  should_exclude test_config "/my/path/document.pdf" = true /\
  should_exclude test_config "/my/path/photo.jpg" = false /\
  should_exclude test_config "/my/path/video.mp4" = false.
Proof. vm_compute. repeat split. Qed.

(** ** Counters *)

Lemma incr_lookup (k k' : string) (s : gmap string nat) :
  incr k s !!! k' = if decide (k = k') then S (s !!! k) else s !!! k'.
Proof.
  unfold incr. case_decide as H.
  - subst. by rewrite lookup_total_insert_eq.
  - by rewrite lookup_total_insert_ne.
Qed.

Lemma count_lookup k k' a :
  stats (count k a) !!! k' = if decide (k = k') then S (stats a !!! k) else stats a !!! k'.
Proof. apply incr_lookup. Qed.

Lemma foldl_invariant {A B} (P : A -> Prop) (f : A -> B -> A) (l : list B) (a : A) :
  (forall a x, x ∈ l -> P a -> P (f a x)) -> P a -> P (foldl f a l).
Proof.
  revert a. induction l as [|x l IH]; intros a Hf Ha; simpl; [done|].
  apply IH.
  - intros a' y Hy. apply Hf. by right.
  - apply Hf; [by left | done].
Qed.

(** ** Rows after an UPDATE or INSERT *)

Lemma elem_of_update_by_id t i f r' :
  r' ∈ update_by_id t i f ->
  r' ∈ t \/ exists r, r ∈ t /\ id r = i /\ r' = f r.
Proof.
  unfold update_by_id. intros H. apply list_elem_of_fmap in H as [r [-> Hr]].
  case_bool_decide; [right; eauto | by left].
Qed.

Lemma update_retarget_some t i p name mt now t' :
  update_retarget t i p name mt now = Some t' ->
  t' = update_by_id t i (retarget p name mt now).
Proof. unfold update_retarget. destruct (List.existsb _ _); congruence. Qed.

Lemma insert_record_some t p name sz mt h now t' :
  insert_record t p name sz mt h now = Some t' ->
  t' = t ++ [mkFileRecord (next_id t) p name sz mt h now active].
Proof. unfold insert_record. destruct (List.existsb _ _); congruence. Qed.

(** ** The bit-rot branch *)

Lemma rot_free_count k a :
  k <> "bitrot_detected" -> rot_free a -> rot_free (count k a).
Proof.
  intros Hk (Hdb & Hn & Hl & Hg). repeat split; try done.
  rewrite count_lookup. by case_decide.
Qed.

Lemma rot_free_update a i f :
  (forall r, status (f r) <> corrupted) ->
  rot_free a -> rot_free (with_db (update_by_id (db a) i f) a).
Proof.
  intros Hf (Hdb & Hn & Hl & Hg). repeat split; try done.
  intros r' Hr'. apply elem_of_update_by_id in Hr' as [? | (r & ? & ? & ->)]; auto.
Qed.

Lemma rot_free_opened p a : rot_free a -> rot_free (note_opened p a).
Proof. by intros (Hdb & Hn & Hl & Hg). Qed.

Lemma audit_known_rot_free w force now p sz mt row a :
  rot_free a -> rot_free (audit_known w force now p sz mt row a).
Proof.
  intros Ha. unfold audit_known. destruct row as [i pa na dsz dmt dh ls stt].
  destruct (negb force && bool_decide (dsz = sz) && bool_decide (dmt = mt)) eqn:Hfast.
  - apply rot_free_count; [done|]. by apply rot_free_update.
  - destruct (truthy_hash _) as [h|].
    + simpl. apply rot_free_count; [done|].
      apply (rot_free_update (note_opened p a)); [done|]. by apply rot_free_opened.
    + apply rot_free_count; [done|]. by apply rot_free_opened.
Qed.

Lemma audit_unknown_rot_free w now p file sz mt a :
  rot_free a -> rot_free (audit_unknown w now p file sz mt a).
Proof.
  intros Ha. unfold audit_unknown.
  pose proof (rot_free_opened p a Ha) as Ho.
  destruct (truthy_hash _) as [h|]; [|by apply rot_free_count].
  destruct (List.find _ _) as [mc|].
  - destruct (update_retarget _ _ _ _ _ _) as [t|] eqn:Hu; [|by apply rot_free_count].
    apply update_retarget_some in Hu as ->.
    apply rot_free_count; [done|].
    by apply (rot_free_update (note_opened p a)).
  - destruct (insert_record _ _ _ _ _ _ _) as [t|] eqn:Hi; [|by apply rot_free_count].
    apply insert_record_some in Hi as ->.
    apply rot_free_count; [done|].
    destruct Ho as (Hdb & Hn & Hl & Hg). repeat split; try done.
    simpl. intros r Hr. apply elem_of_app in Hr as [Hr | Hr]; [by apply Hdb|].
    apply list_elem_of_singleton in Hr as ->. done.
Qed.

Lemma audit_file_rot_free w force now root file a :
  rot_free a -> rot_free (audit_file w force now root file a).
Proof.
  intros Ha. unfold audit_file.
  destruct (should_exclude _ _); [done|].
  assert (rot_free (count "scanned" a)) as Hs by by apply rot_free_count.
  destruct (os_stat w _) as [st|]; [|by apply rot_free_count].
  change (db (count "scanned" a)) with (db a).
  destruct (select_by_path _ _) as [row|].
  - by apply audit_known_rot_free.
  - by apply audit_unknown_rot_free.
Qed.

Lemma traverse_rot_free w force now target a :
  rot_free a -> rot_free (traverse w force now target a).
Proof.
  intros Ha. unfold traverse. apply foldl_invariant; [|done].
  intros a' [root files] _ Ha'. apply foldl_invariant; [|done].
  intros a'' file _. apply audit_file_rot_free.
Qed.

Lemma reconcile_rot_free w target now a :
  rot_free a -> rot_free (reconcile w target now a).
Proof.
  intros Ha. unfold reconcile. apply foldl_invariant; [|done].
  intros a' mf _ Ha'. unfold reconcile_one.
  destruct (negb _); [|done].
  apply rot_free_count; [done|].
  destruct Ha' as (Hdb & Hn & Hl & Hg). repeat split; try done.
  simpl. intros r' Hr'. unfold update_missing in Hr'.
  apply list_elem_of_fmap in Hr' as [r [-> Hr]].
  case_bool_decide; [done | by apply Hdb].
Qed.

(** The guard of the bit-rot branch is false wherever it is evaluated: one
    call of [audit_known] leaves the bit-rot counter, list and log alone. *)
Lemma audit_known_skips_bitrot w force now p sz mt row a :
  stats (audit_known w force now p sz mt row a) !!! "bitrot_detected"
  = stats a !!! "bitrot_detected" /\
  bitrot_list (audit_known w force now p sz mt row a) = bitrot_list a /\
  bitrot_log (audit_known w force now p sz mt row a) = bitrot_log a.
Proof.
  unfold audit_known. destruct row as [i pa na dsz dmt dh ls stt].
  destruct (negb force && bool_decide (dsz = sz) && bool_decide (dmt = mt)).
  - by rewrite count_lookup.
  - destruct (truthy_hash _); simpl; by rewrite incr_lookup.
Qed.

(** C10: from a store without corrupted rows, an audit of any directory in
    any world, forced or not, leaves a store without corrupted rows, counts
    zero bit-rot detections and reports none; the bit-rot branch is never
    taken, whatever row and file the loop body is given. *)
Theorem audit_never_reports_bitrot (w : World) (database : option Table)
    (target_dir : string) (force_rehash : bool) (current_time : Z) :
  (forall r, r ∈ init_db database -> status r <> corrupted) ->
  (forall t, (run_audit w database target_dir force_rehash current_time).1 = Some t ->
     forall r, r ∈ t -> status r <> corrupted) /\
  (forall a, (run_audit w database target_dir force_rehash current_time).2 = Some a ->
     stats a !!! "bitrot_detected" = 0%nat /\ bitrot_list a = [] /\ bitrot_log a = []) /\
  (forall p sz mt row a,
     stats (audit_known w force_rehash current_time p sz mt row a) !!! "bitrot_detected"
     = stats a !!! "bitrot_detected" /\
     bitrot_list (audit_known w force_rehash current_time p sz mt row a) = bitrot_list a /\
     bitrot_log (audit_known w force_rehash current_time p sz mt row a) = bitrot_log a).
Proof.
  intros Hdb. split_and!; [| |intros; apply audit_known_skips_bitrot].
  - unfold run_audit. destruct (negb (os_path_isdir w target_dir)); simpl.
    + intros t ->. exact Hdb.
    + intros t [= <-]. apply reconcile_rot_free, traverse_rot_free. by repeat split.
  - unfold run_audit. destruct (negb (os_path_isdir w target_dir)); simpl; [done|].
    intros a [= <-].
    assert (rot_free (reconcile w target_dir current_time
              (traverse w force_rehash current_time target_dir
                 (mkAudit (init_db database) new_stats [] [] [])))) as (_ & H2 & H3 & H4).
    { apply reconcile_rot_free, traverse_rot_free. by repeat split. }
    done.
Qed.

(** A forced audit over a file whose bytes changed under an unchanged size
    and modification time. *)
Lemma audit_never_reports_bitrot_witness :
  (forall r, r ∈ init_db (Some rotten_store) -> status r <> corrupted) /\
  (run_audit rotten_world (Some rotten_store) "/data" true 8000).1
    = Some [mkFileRecord 1 "/data/a.txt" "a.txt" 3 100 "sha:new" 8000 active] /\
  (forall a, (run_audit rotten_world (Some rotten_store) "/data" true 8000).2 = Some a ->
     stats a !!! "bitrot_detected" = 0%nat /\ bitrot_list a = [] /\ bitrot_log a = []).
Proof.
  assert (forall r, r ∈ init_db (Some rotten_store) -> status r <> corrupted) as H.
  { intros r Hr. apply list_elem_of_singleton in Hr as ->. discriminate. }
  split; [exact H|]. split; [vm_compute; reflexivity|].
  destruct (audit_never_reports_bitrot rotten_world (Some rotten_store) "/data" true
              8000 H) as (_ & Hrun & _).
  exact Hrun.
Defined.

(** C1 at its failing input: the file's bytes changed, its size and
    modification time equal the stored ones, and the re-hash is forced.  The
    run counts the file as modified, counts no bit-rot, reports nothing, and
    the row carries the new hash with status [active]. *)
Example forced_rehash_reports_modified :
  exists a,
    run_audit rotten_world (Some rotten_store) "/data" true 8000
      = (Some [mkFileRecord 1 "/data/a.txt" "a.txt" 3 100 "sha:new" 8000 active],
         Some a) /\
    stats a !!! "modified_files" = 1%nat /\
    stats a !!! "bitrot_detected" = 0%nat /\
    bitrot_list a = [] /\ bitrot_log a = [] /\
    opened a = ["/data/a.txt"].
Proof. eexists. split; [reflexivity|]. vm_compute. repeat split. Qed.

(** ** The table under its schema constraints *)

Lemma NoDup_fmap_eq {A B} (f : A -> B) (l : list A) x y :
  NoDup (f <$> l) -> x ∈ l -> y ∈ l -> f x = f y -> x = y.
Proof.
  induction l as [|z l IH]; intros Hnd Hx Hy Hf; [by apply elem_of_nil in Hx|].
  rewrite fmap_cons in Hnd. apply NoDup_cons in Hnd as [Hz Hnd].
  apply elem_of_cons in Hx as [-> | Hx]; apply elem_of_cons in Hy as [-> | Hy].
  - done.
  - exfalso. apply Hz. rewrite Hf. by apply list_elem_of_fmap_2.
  - exfalso. apply Hz. rewrite <- Hf. by apply list_elem_of_fmap_2.
  - by apply IH.
Qed.

Lemma select_by_path_some t p r :
  select_by_path t p = Some r -> r ∈ t /\ file_path r = p.
Proof.
  unfold select_by_path. intros H. apply find_some in H as [Hin Hp].
  split; [by apply list_elem_of_In | by apply bool_decide_eq_true in Hp].
Qed.

Lemma select_by_path_none t p :
  select_by_path t p = None -> forall r, r ∈ t -> file_path r <> p.
Proof.
  unfold select_by_path. intros H r Hr Hp.
  apply list_elem_of_In in Hr.
  pose proof (find_none _ _ H r Hr) as Hf. simpl in Hf.
  by apply bool_decide_eq_false in Hf.
Qed.

Lemma select_by_path_unique t p r :
  NoDup (file_path <$> t) -> r ∈ t -> file_path r = p -> select_by_path t p = Some r.
Proof.
  intros Hnd Hr Hp. destruct (select_by_path t p) as [r'|] eqn:Hs.
  - apply select_by_path_some in Hs as [Hr' Hp']. f_equal.
    apply (NoDup_fmap_eq file_path t); congruence.
  - exfalso. by apply (select_by_path_none _ _ Hs r).
Qed.

Lemma update_by_id_absent t i f :
  (forall r, r ∈ t -> id r <> i) -> update_by_id t i f = t.
Proof.
  intros H. unfold update_by_id.
  induction t as [|r t IH]; [done|]. rewrite fmap_cons. f_equal.
  - rewrite bool_decide_eq_false_2; [done|]. apply H. by left.
  - apply IH. intros r' Hr'. apply H. by right.
Qed.

Lemma update_by_id_split before mc after f :
  NoDup (id <$> (before ++ mc :: after)) ->
  update_by_id (before ++ mc :: after) (id mc) f = before ++ f mc :: after.
Proof.
  intros Hnd. rewrite fmap_app, fmap_cons in Hnd.
  apply NoDup_app in Hnd as (_ & Hb & Hnd).
  apply NoDup_cons in Hnd as [Ha _].
  unfold update_by_id. rewrite fmap_app, fmap_cons.
  rewrite bool_decide_eq_true_2 by done.
  fold (update_by_id before (id mc) f). fold (update_by_id after (id mc) f).
  rewrite !update_by_id_absent; [done | |].
  - intros r Hr Heq. apply Ha. rewrite <- Heq. by apply list_elem_of_fmap_2.
  - intros r Hr Heq. apply (Hb (id r)); [by apply list_elem_of_fmap_2|].
    rewrite Heq. by left.
Qed.

Lemma update_by_id_by_path t row f :
  table_ok t -> row ∈ t ->
  update_by_id t (id row) f
  = (fun r => if bool_decide (file_path r = file_path row) then f r else r) <$> t.
Proof.
  intros [Hid Hpath] Hrow. unfold update_by_id.
  apply list_fmap_ext. intros _ r Hr%list_elem_of_lookup_2.
  destruct (decide (r = row)) as [-> | Hne].
  - by rewrite !bool_decide_eq_true_2.
  - rewrite !bool_decide_eq_false_2; [done | |].
    + intros Heq. apply Hne. by apply (NoDup_fmap_eq file_path t).
    + intros Heq. apply Hne. by apply (NoDup_fmap_eq id t).
Qed.

Lemma table_ok_update t i f :
  (forall r, id (f r) = id r /\ file_path (f r) = file_path r) ->
  table_ok t -> table_ok (update_by_id t i f).
Proof.
  intros Hf [Hid Hpath]. unfold table_ok, update_by_id.
  rewrite <- !list_fmap_compose.
  rewrite (list_fmap_ext (id ∘ _) id t), (list_fmap_ext (file_path ∘ _) file_path t);
    [done | |]; intros _ r _; simpl; case_bool_decide; try done; apply Hf.
Qed.

Lemma table_ok_retarget before mc after p name mt now :
  table_ok (before ++ mc :: after) ->
  (forall r, r ∈ before ++ mc :: after -> file_path r <> p) ->
  table_ok (before ++ retarget p name mt now mc :: after).
Proof.
  intros [Hid Hpath] Hp. split.
  - by rewrite fmap_app, fmap_cons in *.
  - rewrite fmap_app, fmap_cons in *. simpl.
    apply NoDup_app in Hpath as (Hb & Hba & Hpath).
    apply NoDup_cons in Hpath as [Hm Ha].
    apply NoDup_app. split; [done|]. split.
    + intros q Hq Hq'. apply elem_of_cons in Hq' as [-> | Hq'].
      * apply list_elem_of_fmap in Hq as [r [Heq Hr]].
        apply (Hp r); [apply elem_of_app; by left | done].
      * apply (Hba q Hq). by right.
    + apply NoDup_cons. split; [|done].
      intros Hq. apply list_elem_of_fmap in Hq as [r [Heq Hr]].
      apply (Hp r); [|done]. apply elem_of_app. right. by right.
Qed.

Lemma next_id_above t r : r ∈ t -> id r < next_id t.
Proof.
  unfold next_id. induction t as [|x t IH]; intros Hr; [by apply elem_of_nil in Hr|].
  rewrite fmap_cons. simpl. apply elem_of_cons in Hr as [-> | Hr].
  - lia.
  - specialize (IH Hr). lia.
Qed.

Lemma table_ok_insert t p name sz mt h now :
  table_ok t -> (forall r, r ∈ t -> file_path r <> p) ->
  table_ok (t ++ [mkFileRecord (next_id t) p name sz mt h now active]).
Proof.
  intros [Hid Hpath] Hp. split; rewrite fmap_app; simpl; apply NoDup_app.
  - split; [done|]. split; [|apply NoDup_singleton].
    intros i Hi Hi'. apply list_elem_of_singleton in Hi'.
    apply list_elem_of_fmap in Hi as [r [Heq Hr]].
    apply next_id_above in Hr. lia.
  - split; [done|]. split; [|apply NoDup_singleton].
    intros q Hq Hq'. apply list_elem_of_singleton in Hq'.
    apply list_elem_of_fmap in Hq as [r [Heq Hr]].
    apply (Hp r Hr). congruence.
Qed.

Lemma update_retarget_fresh t i p name mt now :
  (forall r, r ∈ t -> file_path r <> p) ->
  update_retarget t i p name mt now = Some (update_by_id t i (retarget p name mt now)).
Proof.
  intros Hp. unfold update_retarget.
  destruct (List.existsb _ t) eqn:He; [|done].
  apply existsb_exists in He as [r [Hr Hb]].
  apply bool_decide_eq_true in Hb as [Hb _].
  exfalso. apply (Hp r); [by apply list_elem_of_In | done].
Qed.

Lemma insert_record_fresh t p name sz mt h now :
  (forall r, r ∈ t -> file_path r <> p) ->
  insert_record t p name sz mt h now
  = Some (t ++ [mkFileRecord (next_id t) p name sz mt h now active]).
Proof.
  intros Hp. unfold insert_record.
  destruct (List.existsb _ t) eqn:He; [|done].
  apply existsb_exists in He as [r [Hr Hb]].
  apply bool_decide_eq_true in Hb.
  exfalso. apply (Hp r); [by apply list_elem_of_In | done].
Qed.

(** ** The fast path *)

(** C3: a scanned file whose row has the observed size and modification
    time, in a run that does not force the re-hash, is counted as unchanged:
    its row keeps id, path, name, size, mtime and hash, gets the run's
    [last_seen] and status [active]; no other row changes; and the file's
    content is not opened. *)
Theorem fast_path_unchanged (w : World) (current_time : Z) (root file : string)
    (a : Audit) (row : FileRecord) (st : stat_result) :
  table_ok (db a) ->
  should_exclude (CONFIG w) (os_path_join root file) = false ->
  os_stat w (os_path_join root file) = Some st ->
  select_by_path (db a) (os_path_join root file) = Some row ->
  file_size row = st_size st ->
  mtime row = st_mtime st ->
  let a' := audit_file w false current_time root file a in
  stats a' = incr "skipped_unchanged" (incr "scanned" (stats a)) /\
  opened a' = opened a /\
  bitrot_list a' = bitrot_list a /\
  db a' = (fun r => if bool_decide (file_path r = os_path_join root file)
                    then touch current_time r else r) <$> db a /\
  select_by_path (db a') (os_path_join root file)
  = Some (mkFileRecord (id row) (file_path row) (file_name row) (file_size row)
                       (mtime row) (sha256_hash row) current_time active).
Proof.
  intros Hok Hex Hst Hsel Hsz Hmt a'.
  assert (a' = count "skipped_unchanged"
                 (with_db (update_by_id (db a) (id row) (touch current_time))
                    (count "scanned" a))) as ->.
  { subst a'. unfold audit_file. rewrite Hex, Hst. simpl. rewrite Hsel.
    unfold audit_known. destruct row as [i pa na dsz dmt dh ls stt]. simpl in *.
    subst. by rewrite !bool_decide_eq_true_2. }
  apply select_by_path_some in Hsel as Hrow. destruct Hrow as [Hrow Hp].
  simpl. repeat split; try done.
  - rewrite (update_by_id_by_path _ row) by done. by rewrite Hp.
  - apply select_by_path_unique.
    + by apply table_ok_update.
    + unfold update_by_id. apply list_elem_of_fmap. exists row.
      by rewrite bool_decide_eq_true_2.
    + done.
Qed.

(** ** Move detection *)

Lemma find_filter {A} (P : A -> Prop) `{!forall x, Decision (P x)} (q : A -> bool)
    (l : list A) :
  List.find q (filter P l) = List.find (fun x => bool_decide (P x) && q x) l.
Proof.
  induction l as [|x l IH]; [done|]. rewrite filter_cons. simpl.
  case_bool_decide; simpl; [|by case_decide].
  case_decide; [|done]. simpl. by rewrite IH.
Qed.

Lemma find_ext {A} (f g : A -> bool) (l : list A) :
  (forall x, f x = g x) -> List.find f l = List.find g l.
Proof. intros H. induction l as [|x l IH]; simpl; [done|]. by rewrite H, IH. Qed.

Lemma find_first {A} (f : A -> bool) (l : list A) x :
  List.find f l = Some x ->
  exists before after,
    l = before ++ x :: after /\ f x = true /\ forall y, y ∈ before -> f y = false.
Proof.
  induction l as [|z l IH]; simpl; [done|].
  destruct (f z) eqn:Hz.
  - intros [= ->]. exists [], l. repeat split; [done|].
    intros y Hy. by apply elem_of_nil in Hy.
  - intros H. destruct (IH H) as (before & after & -> & Hx & Hb).
    exists (z :: before), after. repeat split; [done|].
    intros y Hy. apply elem_of_cons in Hy as [-> | Hy]; auto.
Qed.

Lemma find_present {A} (f : A -> bool) (l : list A) y :
  y ∈ l -> f y = true -> is_Some (List.find f l).
Proof.
  intros Hy Hf. destruct (List.find f l) eqn:Hfind; [eauto|].
  apply list_elem_of_In in Hy. pose proof (find_none _ _ Hfind y Hy). congruence.
Qed.

Lemma find_move_candidate w t h sz :
  List.find (vacated w) (select_by_hash_size t h sz)
  = List.find (fun r => bool_decide (move_candidate w h sz r)) t.
Proof.
  unfold select_by_hash_size. rewrite find_filter. apply find_ext.
  intros r. unfold vacated.
  destruct (os_path_exists w (file_path r)) eqn:Hex; simpl.
  - rewrite andb_false_r. symmetry. apply bool_decide_eq_false.
    unfold move_candidate. rewrite Hex. by intros (_ & _ & ?).
  - rewrite andb_true_r. apply bool_decide_ext.
    unfold move_candidate. rewrite Hex. tauto.
Qed.

Lemma rows_at_none t p : (forall r, r ∈ t -> file_path r <> p) -> rows_at t p = 0%nat.
Proof.
  intros H. unfold rows_at. induction t as [|r t IH]; [done|].
  rewrite filter_cons_False; [|apply H; by left].
  apply IH. intros r' Hr'. apply H. by right.
Qed.

Lemma rows_at_app t1 t2 p : rows_at (t1 ++ t2) p = (rows_at t1 p + rows_at t2 p)%nat.
Proof. unfold rows_at. by rewrite filter_app, length_app. Qed.

Lemma rows_at_cons r t p :
  rows_at (r :: t) p = ((if decide (file_path r = p) then 1 else 0) + rows_at t p)%nat.
Proof. unfold rows_at. rewrite filter_cons. by case_decide. Qed.

(** What the loop body does for a readable file that has no row. *)
Lemma audit_file_unknown w force now root file a st h :
  should_exclude (CONFIG w) (os_path_join root file) = false ->
  os_stat w (os_path_join root file) = Some st ->
  select_by_path (db a) (os_path_join root file) = None ->
  truthy_hash (calculate_sha256 w (os_path_join root file)) = Some h ->
  audit_file w force now root file a
  = let a1 := note_opened (os_path_join root file) (count "scanned" a) in
    match List.find (fun r => bool_decide (move_candidate w h (st_size st) r)) (db a) with
    | Some mc =>
        count "moved_files"
          (with_db (update_by_id (db a) (id mc)
                      (retarget (os_path_join root file) file (st_mtime st) now)) a1)
    | None =>
        count "new_files"
          (with_db (db a ++ [mkFileRecord (next_id (db a)) (os_path_join root file) file
                               (st_size st) (st_mtime st) h now active]) a1)
    end.
Proof.
  intros Hex Hst Hsel Hh. unfold audit_file. rewrite Hex, Hst. simpl. rewrite Hsel.
  unfold audit_unknown. rewrite Hh. simpl. rewrite find_move_candidate.
  pose proof (select_by_path_none _ _ Hsel) as Hfree.
  destruct (List.find _ (db a)) as [mc|].
  - by rewrite update_retarget_fresh.
  - by rewrite insert_record_fresh.
Qed.

(** C2: a scanned, readable file without a row.  If some row with the
    file's digest and size has a path that is gone from disk, the first such
    row is retargeted in place (path, name, mtime, last_seen rewritten, status
    [active], id, size and hash kept), the file counts as moved, and the table
    then holds one row for the new path and none for the old one.  If no such
    row exists, a fresh row is appended and the file counts as new.  The
    schema constraints hold afterwards. *)
Theorem unknown_path_moved_or_new (w : World) (force_rehash : bool)
    (current_time : Z) (root file : string) (a : Audit) (st : stat_result)
    (h : string) :
  table_ok (db a) ->
  should_exclude (CONFIG w) (os_path_join root file) = false ->
  os_stat w (os_path_join root file) = Some st ->
  select_by_path (db a) (os_path_join root file) = None ->
  truthy_hash (calculate_sha256 w (os_path_join root file)) = Some h ->
  let a' := audit_file w force_rehash current_time root file a in
  ((exists r, r ∈ db a /\ move_candidate w h (st_size st) r) ->
   exists before mc after,
     db a = before ++ mc :: after /\
     move_candidate w h (st_size st) mc /\
     (forall r, r ∈ before -> ~ move_candidate w h (st_size st) r) /\
     db a' = before ++
             mkFileRecord (id mc) (os_path_join root file) file (file_size mc)
                          (st_mtime st) (sha256_hash mc) current_time active
             :: after /\
     stats a' = incr "moved_files" (incr "scanned" (stats a)) /\
     rows_at (db a') (os_path_join root file) = 1%nat /\
     rows_at (db a') (file_path mc) = 0%nat) /\
  ((forall r, r ∈ db a -> ~ move_candidate w h (st_size st) r) ->
   db a' = db a ++ [mkFileRecord (next_id (db a)) (os_path_join root file) file
                      (st_size st) (st_mtime st) h current_time active] /\
   stats a' = incr "new_files" (incr "scanned" (stats a)) /\
   rows_at (db a') (os_path_join root file) = 1%nat) /\
  table_ok (db a').
Proof.
  intros Hok Hex Hst Hsel Hh a'. subst a'.
  rewrite (audit_file_unknown w force_rehash current_time root file a st h) by done.
  pose proof (select_by_path_none _ _ Hsel) as Hfree.
  set (p := os_path_join root file) in *.
  destruct (List.find _ (db a)) as [mc|] eqn:Hfind; simpl.
  - apply find_first in Hfind as (before & after & Hdb & Hmc & Hb).
    apply bool_decide_eq_true in Hmc.
    assert (update_by_id (db a) (id mc) (retarget p file (st_mtime st) current_time)
            = before ++ retarget p file (st_mtime st) current_time mc :: after) as Hup.
    { rewrite Hdb. apply update_by_id_split. rewrite <- Hdb. apply Hok. }
    rewrite Hup. split; [|split].
    + intros _. exists before, mc, after. split_and!; try done.
      * intros r Hr. specialize (Hb r Hr). by apply bool_decide_eq_false in Hb.
      * rewrite rows_at_app, rows_at_cons. simpl. rewrite decide_True by done.
        rewrite !rows_at_none; [done | |]; intros r Hr; apply Hfree; rewrite Hdb;
          apply elem_of_app; [right; by right | by left].
      * rewrite rows_at_app, rows_at_cons. simpl.
        assert (p <> file_path mc) as Hne.
        { intros Heq. destruct Hmc as (_ & _ & Hgone).
          unfold os_path_exists in Hgone. rewrite <- Heq in Hgone.
          by rewrite Hst in Hgone. }
        rewrite decide_False by done.
        destruct Hok as [_ Hpath]. rewrite Hdb, fmap_app, fmap_cons in Hpath.
        apply NoDup_app in Hpath as (_ & Hba & Hpath).
        apply NoDup_cons in Hpath as [Hm _].
        rewrite !rows_at_none; [done | |].
        -- intros r Hr Heq. apply Hm. rewrite <- Heq. by apply list_elem_of_fmap_2.
        -- intros r Hr Heq. apply (Hba (file_path r)); [by apply list_elem_of_fmap_2|].
           rewrite Heq. by left.
    + intros Hnone. exfalso. apply (Hnone mc); [|done].
      rewrite Hdb. apply elem_of_app. right. by left.
    + apply table_ok_retarget; by rewrite <- Hdb.
  - split; [|split].
    + intros [r [Hr Hc]]. exfalso.
      destruct (find_present (fun r => bool_decide (move_candidate w h (st_size st) r))
                  (db a) r Hr) as [x Hx]; [by apply bool_decide_eq_true | congruence].
    + intros _. split_and!; try done.
      rewrite rows_at_app, rows_at_cons. simpl. rewrite decide_True by done.
      by rewrite rows_at_none.
    + by apply table_ok_insert.
Qed.

(** ** Reconciliation *)











Lemma reconcile_fold_db w l a :
  db (foldl (reconcile_one w) a l)
  = (fun r => if bool_decide (file_path r ∈ l /\ os_path_exists w (file_path r) = false)
              then mark_missing r else r) <$> db a.
Proof.
  revert a. induction l as [|mf l IH]; intros a; simpl.
  - transitivity (Datatypes.id <$> db a); [by rewrite list_fmap_id|].
    apply list_fmap_ext. by intros _ r _.
  - rewrite IH. unfold reconcile_one.
    destruct (os_path_exists w mf) eqn:Hex; simpl.
    + apply list_fmap_ext. intros _ r _.
      apply (f_equal (fun (b : bool) => if b then mark_missing r else r)).
      apply bool_decide_ext. split.
      * intros [H ?]. split; [by right | done].
      * intros [[-> | H]%elem_of_cons Hgone]; [congruence | done].
    + unfold update_missing. rewrite <- list_fmap_compose.
      apply list_fmap_ext. intros _ r _. simpl.
      destruct (decide (file_path r = mf)) as [Heq | Hne].
      * rewrite (bool_decide_eq_true_2 (file_path r = mf)) by done. simpl.
        rewrite (bool_decide_eq_true_2 (file_path r ∈ mf :: l /\ _)).
        2:{ split; [rewrite Heq; by left | congruence]. }
        by case_bool_decide.
      * rewrite (bool_decide_eq_false_2 (file_path r = mf)) by done.
        apply (f_equal (fun (b : bool) => if b then mark_missing r else r)).
        apply bool_decide_ext. split.
        -- intros [H ?]. split; [by right | done].
        -- intros [[? | H]%elem_of_cons Hgone]; done.
Qed.

Lemma reconcile_fold_stats w l a k :
  stats (foldl (reconcile_one w) a l) !!! k
  = if decide (k = "removed_files")
    then (stats a !!! k + length (filter (fun p => os_path_exists w p = false) l))%nat
    else stats a !!! k.
Proof.
  revert a. induction l as [|mf l IH]; intros a; simpl.
  - case_decide; [|done]. simpl. lia.
  - rewrite IH. unfold reconcile_one. rewrite filter_cons.
    destruct (os_path_exists w mf) eqn:Hex; simpl.
    + done.
    + rewrite incr_lookup.
      case_decide as Hk.
      * subst k. rewrite decide_True by done. simpl. lia.
      * by rewrite decide_False by done.
Qed.





(** ** Duplicate analysis *)

Lemma dup_step_unfold t target known acc d :
  dup_step t target known acc d
  = if decide (reported known t target d.1)
    then {| result := result acc ++ [group_of t target d.1];
            total_wasted_space :=
              total_wasted_space acc
              + group_size (members t target d.1)
                * Z.of_nat (length (members t target d.1) - 1);
            duplicate_count :=
              (duplicate_count acc + (length (members t target d.1) - 1))%nat |}
    else acc.
Proof.
  unfold dup_step, group_of. fold (members t target d.1).
  destruct (decide (reported known t target d.1)) as [[Hk Hlen] | Hno].
  - rewrite Hk.
    destruct (members t target d.1) as [|m1 [|m2 ms]]; simpl in Hlen; [lia | lia | done].
  - destruct (known_covers _ _ _) eqn:Hk; [done|].
    destruct (members t target d.1) as [|m1 [|m2 ms]] eqn:Hm; [done | done |].
    exfalso. apply Hno. unfold reported. rewrite Hm. split; [done | simpl; lia].
Qed.

Lemma dup_fold_result t target known l acc :
  result (foldl (dup_step t target known) acc l)
  = result acc ++ (group_of t target <$> filter (reported known t target) l.*1).
Proof.
  revert acc. induction l as [|d l IH]; intros acc; simpl.
  - by rewrite app_nil_r.
  - rewrite IH, dup_step_unfold, filter_cons.
    case_decide; simpl; [|done]. by rewrite <- app_assoc.
Qed.


Lemma fst_filter_count {A} (c : A -> nat) (P : nat -> Prop)
    `{!forall n, Decision (P n)} (l : list A) :
  (filter (fun hc : A * nat => P hc.2) ((fun h => (h, c h)) <$> l)).*1
  = filter (fun h => P (c h)) l.
Proof.
  induction l as [|x l IH]; [done|].
  rewrite fmap_cons, !filter_cons. simpl.
  case_decide; [|done]. rewrite fmap_cons. simpl. by rewrite IH.
Qed.

Lemma members_length_le t target h :
  (length (members t target h)
   <= length (filter (fun r => sha256_hash r = h) (filter (in_scope target) t)))%nat.
Proof.
  unfold members, select_members.
  etransitivity; [apply length_filter|]. rewrite length_fmap.
  rewrite list_filter_filter. done.
Qed.


Lemma duplicate_hashes_complete t target h :
  (1 < length (members t target h))%nat -> h ∈ (select_duplicate_hashes t target).*1.
Proof.
  intros Hlen. pose proof (members_length_le t target h) as Hle.
  unfold select_duplicate_hashes.
  rewrite (fst_filter_count _ (fun n => (1 < n)%nat)).
  apply list_elem_of_filter. split; [lia|].
  apply elem_of_remove_dups.
  destruct (filter (fun r => sha256_hash r = h) (filter (in_scope target) t))
    as [|r rs] eqn:Hf; [simpl in Hle; lia|].
  assert (r ∈ filter (fun r => sha256_hash r = h) (filter (in_scope target) t)) as Hr.
  { rewrite Hf. by left. }
  apply list_elem_of_filter in Hr as [<- Hr]. by apply list_elem_of_fmap_2.
Qed.

Lemma find_duplicates_result database target known_data g :
  g ∈ result (find_duplicates database target known_data).2
  <-> exists h, reported (load_known_dupes known_data) (init_db database) target h
                /\ g = group_of (init_db database) target h.
Proof.
  unfold find_duplicates. simpl. rewrite dup_fold_result. simpl.
  rewrite list_elem_of_fmap. split.
  - intros (h & -> & Hh). apply list_elem_of_filter in Hh as [Hrep _]. eauto.
  - intros (h & Hrep & ->). exists h. split; [done|].
    apply list_elem_of_filter. split; [done|].
    apply duplicate_hashes_complete, Hrep.
Qed.


Lemma members_spec t target h p sz :
  (p, sz) ∈ members t target h
  <-> exists r, r ∈ t /\ file_path r = p /\ file_size r = sz /\ sha256_hash r = h /\
                status r = active /\ sql_like (like_query target) p = true /\
                Str.contains "/Archive/" p = false.
Proof.
  unfold members, select_members. rewrite list_elem_of_filter, list_elem_of_fmap.
  unfold not_archived, in_scope. simpl. split.
  - intros (Ha & r & [= -> ->] & Hr). apply list_elem_of_filter in Hr.
    exists r. tauto.
  - intros (r & Hr & <- & <- & Hh & Hs & Hl & Ha). split; [done|].
    exists r. split; [done|]. apply list_elem_of_filter. tauto.
Qed.

Lemma members_paths_NoDup t target h :
  NoDup (file_path <$> t) -> NoDup (members t target h).*1.
Proof.
  intros Hnd. apply (sublist_NoDup _ (file_path <$> t)); [done|].
  clear Hnd. unfold members, select_members.
  induction t as [|r t IH]; [constructor|].
  rewrite filter_cons. case_decide.
  - rewrite fmap_cons, filter_cons. case_decide.
    + rewrite !fmap_cons. simpl. by constructor.
    + rewrite fmap_cons. by constructor.
  - rewrite fmap_cons. by constructor.
Qed.

Lemma group_files_length t target h :
  NoDup (file_path <$> t) ->
  length (files (group_of t target h)) = length (members t target h).
Proof.
  intros Hnd. simpl.
  rewrite (Permutation_length (elements_list_to_set _ (members_paths_NoDup t target h Hnd))).
  apply length_fmap.
Qed.



Lemma reported_without_known t target h :
  reported (load_known_dupes None) t target h
  <-> (1 < length (members t target h))%nat.
Proof.
  unfold reported, known_covers, load_known_dupes. rewrite lookup_empty. tauto.
Qed.



(** C7: a hash with more than one member is absent from the report exactly
    when the known-duplicates mapping has an entry for it whose set of paths
    contains every member path; otherwise it is reported, with all its member
    paths. *)
Theorem known_duplicates_suppress_iff (database : option Table)
    (target_dir : string) (known_data : option (list KnownItem)) (h : string) :
  (1 < length (members (init_db database) target_dir h))%nat ->
  let report := (find_duplicates database target_dir known_data).2 in
  (~ (exists g, g ∈ result report /\ hash g = h) <->
   exists accepted : gset string,
     load_known_dupes known_data !! h = Some accepted /\
     forall p, p ∈ (members (init_db database) target_dir h).*1 -> p ∈ accepted) /\
  (forall g, g ∈ result report -> hash g = h ->
     forall p, p ∈ files g <-> p ∈ (members (init_db database) target_dir h).*1).
Proof.
  intros Hlen report.
  assert ((exists g, g ∈ result report /\ hash g = h)
          <-> reported (load_known_dupes known_data) (init_db database) target_dir h)
    as Hrep.
  { split.
    - intros (g & Hg & <-). apply find_duplicates_result in Hg as (h' & Hr & ->). done.
    - intros Hr. exists (group_of (init_db database) target_dir h). split; [|done].
      apply find_duplicates_result. eauto. }
  split.
  - rewrite Hrep. unfold reported, known_covers.
    destruct (load_known_dupes known_data !! h) as [accepted|].
    + split.
      * intros Hno. exists accepted. split; [done|].
        intros p Hp. destruct (decide (list_to_set (members (init_db database) target_dir h).*1
                                        ⊆ accepted)) as [Hsub | Hsub].
        -- apply Hsub, elem_of_list_to_set, Hp.
        -- exfalso. apply Hno. split; [|done]. by apply bool_decide_eq_false.
      * intros (acc' & [= <-] & Hall) [Hcov _].
        apply bool_decide_eq_false in Hcov. apply Hcov.
        intros p Hp. apply Hall. by apply elem_of_list_to_set in Hp.
    + split.
      * intros Hno. exfalso. by apply Hno.
      * by intros (acc' & ? & _).
  - intros g Hg <-. apply find_duplicates_result in Hg as (h' & _ & ->).
    intros p. cbn [files hash group_of].
    by rewrite elem_of_elements, elem_of_list_to_set.
Qed.

(** ** Invalid targets *)

(** C8, as stated, fails for the duplicate analysis: "/nowhere" does not
    exist, the database has no table yet, and after [find_duplicates] the
    table exists. *)
Lemma find_duplicates_creates_table_on_invalid_target :
  ~ (os_path_isdir sibling_world "/nowhere" = false ->
     (find_duplicates None "/nowhere" None).1 = None).
Proof. intros H. specialize (H eq_refl). vm_compute in H. discriminate. Qed.

(** C8 (amended): when the target is not a directory, the audit returns
    before it opens the database: the table is neither created nor changed and
    the run has no result.  The duplicate analysis does not look at the target
    on disk: for every target it opens the database, which creates the empty
    table when there is none, and it leaves the rows as they are. *)
Theorem invalid_target_keeps_records (w : World) (database : option Table)
    (target_dir : string) (force_rehash : bool) (current_time : Z)
    (known_data : option (list KnownItem)) :
  os_path_isdir w target_dir = false ->
  run_audit w database target_dir force_rehash current_time = (database, None) /\
  (find_duplicates database target_dir known_data).1 = Some (init_db database) /\
  (forall t, database = Some t ->
             (find_duplicates database target_dir known_data).1 = database).
Proof.
  intros Hdir. split_and!.
  - unfold run_audit. by rewrite Hdir.
  - done.
  - by intros t ->.
Qed.

(** ** Two runs in a row *)

Lemma traverse_flat w force now target a :
  traverse w force now target a
  = foldl (fun a e => audit_file w force now e.1 e.2 a) a (walk_entries w target).
Proof.
  unfold traverse, walk_entries. revert a.
  induction (os_walk w target) as [|[root files] l IH]; intros a; [done|].
  rewrite fmap_cons. cbn [foldl concat]. rewrite foldl_app, <- IH. f_equal.
  simpl. clear. revert a. induction files as [|f fs IHf]; intros a; [done|].
  simpl. apply IHf.
Qed.















(** ** The theorems at concrete inputs *)

(** The fast path on the stored row of "/data/a.txt". *)
Lemma fast_path_unchanged_witness :
  let a := start_audit rotten_store in
  let a' := audit_file rotten_world false 8000 "/data" "a.txt" a in
  table_ok (db a) /\
  select_by_path (db a) "/data/a.txt"
  = Some (mkFileRecord 1 "/data/a.txt" "a.txt" 3 100 "sha:old" 7000 active) /\
  opened a' = [] /\
  select_by_path (db a') "/data/a.txt"
  = Some (mkFileRecord 1 "/data/a.txt" "a.txt" 3 100 "sha:old" 8000 active).
Proof.
  intros a a'.
  assert (table_ok (db a)) as Hok by (vm_compute; split; apply NoDup_singleton).
  split; [exact Hok|]. split; [reflexivity|].
  destruct (fast_path_unchanged rotten_world 8000 "/data" "a.txt" a
              (mkFileRecord 1 "/data/a.txt" "a.txt" 3 100 "sha:old" 7000 active)
              {| st_isdir := false; st_size := 3; st_mtime := 100 |}
              Hok eq_refl eq_refl eq_refl eq_refl eq_refl)
    as (_ & Hopened & _ & _ & Hrow).
  split; [exact Hopened | exact Hrow].
Defined.

(** The rename of "/data/old.txt" to "/data/new.txt" is found as a move. *)
Lemma unknown_path_moved_or_new_witness :
  let a := start_audit [renamed_row] in
  let a' := audit_file renamed_world false 8000 "/data" "new.txt" a in
  table_ok (db a) /\
  select_by_path (db a) "/data/new.txt" = None /\
  move_candidate renamed_world "sha:gone" 4 renamed_row /\
  table_ok (db a') /\
  exists before mc after,
    db a = before ++ mc :: after /\
    db a' = before ++
            mkFileRecord (id mc) "/data/new.txt" "new.txt" (file_size mc) 40
                         (sha256_hash mc) 8000 active :: after /\
    rows_at (db a') "/data/new.txt" = 1%nat /\
    rows_at (db a') (file_path mc) = 0%nat.
Proof.
  intros a a'.
  assert (table_ok (db a)) as Hok by (vm_compute; split; apply NoDup_singleton).
  assert (move_candidate renamed_world "sha:gone" 4 renamed_row) as Hcand
    by (vm_compute; repeat split).
  destruct (unknown_path_moved_or_new renamed_world false 8000 "/data" "new.txt" a
              {| st_isdir := false; st_size := 4; st_mtime := 40 |} "sha:gone"
              Hok eq_refl eq_refl eq_refl eq_refl)
    as (Hmoved & _ & Hok').
  destruct Hmoved as (before & mc & after & Hdb & _ & _ & Hdb' & _ & Hnew & Hold).
  { exists renamed_row. split; [by left | exact Hcand]. }
  split; [exact Hok|]. split; [reflexivity|]. split; [exact Hcand|].
  split; [exact Hok'|].
  exists before, mc, after. repeat split; assumption.
Defined.




(** Known duplicates that list A and B for "H" suppress the group of "H". *)
Lemma known_duplicates_suppress_iff_witness :
  (1 < length (members (init_db (Some store_ABC)) "/data" "H"))%nat /\
  ~ (exists g, g ∈ result (find_duplicates (Some store_ABC) "/data" known_AB).2
               /\ hash g = "H").
Proof.
  assert (1 < length (members (init_db (Some store_ABC)) "/data" "H"))%nat as Hlen
    by (vm_compute; lia).
  split; [exact Hlen|].
  destruct (known_duplicates_suppress_iff (Some store_ABC) "/data" known_AB "H" Hlen)
    as [[_ Hsuppress] _].
  apply Hsuppress.
  exists (list_to_set ["/data/a.bin"; "/data/sub/b.bin"]). split.
  - unfold load_known_dupes, known_AB. simpl. apply lookup_insert_eq.
  - intros p Hp. apply elem_of_list_to_set. exact Hp.
Defined.

(** Both operations on a target that does not exist, before any table exists. *)
Lemma invalid_target_keeps_records_witness :
  os_path_isdir sibling_world "/nowhere" = false /\
  run_audit sibling_world None "/nowhere" true 10000 = (None, None) /\
  (find_duplicates None "/nowhere" None).1 = Some [].
Proof.
  destruct (invalid_target_keeps_records sibling_world None "/nowhere" true 10000 None
              eq_refl) as (Haudit & Hdup & _).
  split; [reflexivity|]. split; [exact Haudit | exact Hdup].
Defined.

(** * Further properties of the audit *)

(** ** The shape of one step of the loop *)

Lemma update_by_id_ids t i f :
  (forall r, id (f r) = id r) -> id <$> update_by_id t i f = id <$> t.
Proof.
  intros Hf. unfold update_by_id. rewrite <- list_fmap_compose.
  apply list_fmap_ext. intros _ r _. simpl. case_bool_decide; [apply Hf | done].
Qed.

(** One pass through the loop body either skips the file, or counts it as
    scanned and bumps one more counter; the file is opened unless it is
    skipped, cannot be examined, or takes the fast path; rows are rewritten in
    place or one row is appended. *)
Lemma audit_file_shape w force now root file a :
  let p := os_path_join root file in
  let a' := audit_file w force now root file a in
  (should_exclude (CONFIG w) p = true /\ a' = a) \/
  (should_exclude (CONFIG w) p = false /\ os_stat w p = None /\
   a' = count "errors" (count "scanned" a)) \/
  (should_exclude (CONFIG w) p = false /\ force = false /\ is_Some (os_stat w p) /\
   exists t, id <$> t = id <$> db a /\
             a' = count "skipped_unchanged" (with_db t (count "scanned" a))) \/
  (should_exclude (CONFIG w) p = false /\ is_Some (os_stat w p) /\
   exists k t,
     ((id <$> t = id <$> db a /\ k ∈ ["errors"; "modified_files"; "moved_files"]) \/
      ((exists r, t = db a ++ [r]) /\ k = "new_files")) /\
     a' = count k (with_db t (note_opened p (count "scanned" a)))).
Proof.
  intros p a'. subst a'. unfold audit_file. fold p.
  destruct (should_exclude (CONFIG w) p) eqn:Hex; [by left|]. right.
  destruct (os_stat w p) as [st|] eqn:Hst; [|by left]. right. simpl.
  destruct (select_by_path _ _) as [row|] eqn:Hsel.
  - unfold audit_known. destruct row as [i pa na dsz dmt dh ls stt].
    destruct (negb force && bool_decide (dsz = st_size st)
              && bool_decide (dmt = st_mtime st)) eqn:Hfast.
    + left. split_and!; [done | | done |].
      * apply andb_true_iff in Hfast as [Hfast _].
        apply andb_true_iff in Hfast as [Hf _]. by apply negb_true_iff in Hf.
      * eexists. split; [|reflexivity]. by apply update_by_id_ids.
    + right. split_and!; [done | done |].
      destruct (truthy_hash _) as [h|]; simpl.
      * exists "modified_files", (update_by_id (db a) i
                                    (store_modified (st_size st) (st_mtime st) h now)).
        split; [|done]. left. split; [by apply update_by_id_ids|]. set_solver.
      * exists "errors", (db a). split; [left; split; [done | set_solver]|].
        by destruct a.
  - right. split_and!; [done | done |]. unfold audit_unknown.
    destruct (truthy_hash _) as [h|]; simpl.
    + destruct (List.find _ _) as [mc|].
      * destruct (update_retarget _ _ _ _ _ _) as [t|] eqn:Hu.
        -- apply update_retarget_some in Hu as ->.
           eexists "moved_files", _. split; [|reflexivity].
           left. split; [by apply update_by_id_ids | set_solver].
        -- exists "errors", (db a). split; [left; split; [done | set_solver]|].
           by destruct a.
      * destruct (insert_record _ _ _ _ _ _ _) as [t|] eqn:Hi.
        -- apply insert_record_some in Hi as ->.
           eexists "new_files", _. split; [|reflexivity]. right. eauto.
        -- exists "errors", (db a). split; [left; split; [done | set_solver]|].
           by destruct a.
    + exists "errors", (db a). split; [left; split; [done | set_solver]|].
      by destruct a.
Qed.

(** ** Counters of a whole run *)

Ltac split_counter H :=
  apply list_elem_of_In in H; simpl in H;
  repeat (destruct H as [<- | H]; [|]); try done.

Lemma audit_file_scanned w force now root file a :
  stats (audit_file w force now root file a) !!! "scanned"
  = (stats a !!! "scanned"
     + if should_exclude (CONFIG w) (os_path_join root file) then 0 else 1)%nat.
Proof.
  destruct (audit_file_shape w force now root file a)
    as [[-> ->] | [(-> & _ & ->) | [(-> & _ & _ & t & _ & ->)
       | (-> & _ & k & t & Hk & ->)]]]; simpl.
  - lia.
  - rewrite !incr_lookup. simpl. lia.
  - rewrite !incr_lookup. simpl. lia.
  - assert (k <> "scanned") as Hne.
    { destruct Hk as [[_ Hk] | [_ ->]]; [|done]. intros ->.
      apply list_elem_of_In in Hk. simpl in Hk. intuition discriminate. }
    rewrite incr_lookup, decide_False by done. rewrite incr_lookup. simpl. lia.
Qed.

Lemma pass_scanned w force now (l : list (string * string)) a :
  stats (foldl (fun a e => audit_file w force now e.1 e.2 a) a l) !!! "scanned"
  = (stats a !!! "scanned" + length (kept_paths w l))%nat.
Proof.
  revert a. induction l as [|e l IH]; intros a; simpl; [unfold kept_paths; simpl; lia|].
  rewrite IH, audit_file_scanned. unfold kept_paths. rewrite fmap_cons, filter_cons.
  destruct (should_exclude _ _) eqn:Hex.
  - rewrite decide_False by done. lia.
  - rewrite decide_True by done. simpl. lia.
Qed.

Lemma audit_file_adds_up w force now root file a :
  stats a !!! "scanned" = outcomes (stats a) ->
  stats (audit_file w force now root file a) !!! "scanned"
  = outcomes (stats (audit_file w force now root file a)).
Proof.
  intros Hbal. unfold outcomes in *.
  destruct (audit_file_shape w force now root file a)
    as [[_ ->] | [(_ & _ & ->) | [(_ & _ & _ & t & _ & ->)
       | (_ & _ & k & t & Hk & ->)]]]; simpl.
  - done.
  - rewrite !incr_lookup. simpl. lia.
  - rewrite !incr_lookup. simpl. lia.
  - destruct Hk as [[_ Hk] | [_ ->]].
    + split_counter Hk; rewrite !incr_lookup; simpl; lia.
    + rewrite !incr_lookup. simpl. lia.
Qed.

Lemma reconcile_other_counters w target now a k :
  k <> "removed_files" ->
  stats (reconcile w target now a) !!! k = stats a !!! k.
Proof.
  intros Hk. unfold reconcile. rewrite reconcile_fold_stats. by rewrite decide_False.
Qed.

(** X1: the summary of a run adds up.  [scanned] is the number of walked
    files that pass the exclusion filter, and it equals the sum of the
    unchanged, new, modified, moved, bit-rot and error counters: every scanned
    file is counted under exactly one outcome. *)
Theorem audit_counters_add_up (w : World) (database : option Table)
    (target_dir : string) (force_rehash : bool) (current_time : Z) (a : Audit) :
  (run_audit w database target_dir force_rehash current_time).2 = Some a ->
  stats a !!! "scanned" = length (scanned_paths w target_dir) /\
  stats a !!! "scanned"
  = (stats a !!! "skipped_unchanged" + stats a !!! "new_files"
     + stats a !!! "modified_files" + stats a !!! "moved_files"
     + stats a !!! "bitrot_detected" + stats a !!! "errors")%nat.
Proof.
  unfold run_audit. destruct (negb (os_path_isdir w target_dir)); [done|].
  simpl. intros [= <-]. rewrite traverse_flat. split.
  - rewrite reconcile_other_counters by done. rewrite pass_scanned. done.
  - change (stats (reconcile w target_dir current_time
              (foldl (fun a e => audit_file w force_rehash current_time e.1 e.2 a)
                 (mkAudit (init_db database) new_stats [] [] [])
                 (walk_entries w target_dir))) !!! "scanned"
            = outcomes (stats (reconcile w target_dir current_time
              (foldl (fun a e => audit_file w force_rehash current_time e.1 e.2 a)
                 (mkAudit (init_db database) new_stats [] [] [])
                 (walk_entries w target_dir))))).
    unfold outcomes. rewrite !reconcile_other_counters by done.
    apply (foldl_invariant (fun a => stats a !!! "scanned" = outcomes (stats a))).
    + intros a' e _. apply audit_file_adds_up.
    + by vm_compute.
Qed.

(** A forced audit of "/data" with its one file. *)
Lemma audit_counters_add_up_witness :
  exists a,
    (run_audit rotten_world (Some rotten_store) "/data" true 8000).2 = Some a /\
    stats a !!! "scanned" = 1%nat /\
    stats a !!! "scanned"
    = (stats a !!! "skipped_unchanged" + stats a !!! "new_files"
       + stats a !!! "modified_files" + stats a !!! "moved_files"
       + stats a !!! "bitrot_detected" + stats a !!! "errors")%nat.
Proof.
  eexists. split; [reflexivity|].
  exact (audit_counters_add_up rotten_world (Some rotten_store) "/data" true 8000 _
           eq_refl).
Defined.

(** ** Rows of a whole run *)



Lemma audit_file_ids w force now root file a :
  exists extra,
    id <$> db (audit_file w force now root file a) = (id <$> db a) ++ extra /\
    stats (audit_file w force now root file a) !!! "new_files"
    = (stats a !!! "new_files" + length extra)%nat.
Proof.
  destruct (audit_file_shape w force now root file a)
    as [[_ ->] | [(_ & _ & ->) | [(_ & _ & _ & t & Ht & ->)
       | (_ & _ & k & t & Hk & ->)]]]; simpl.
  - exists []. rewrite app_nil_r. split; [done | simpl; lia].
  - exists []. rewrite app_nil_r, !incr_lookup. simpl. split; [done | lia].
  - exists []. rewrite app_nil_r, !incr_lookup. simpl. split; [done | lia].
  - destruct Hk as [[Ht Hk] | [[r ->] ->]].
    + exists []. rewrite app_nil_r. split; [done|].
      split_counter Hk; rewrite !incr_lookup; simpl; lia.
    + exists [id r]. rewrite fmap_app, !incr_lookup. simpl. split; [done | lia].
Qed.

Lemma pass_ids w force now (l : list (string * string)) a :
  exists extra,
    id <$> db (foldl (fun a e => audit_file w force now e.1 e.2 a) a l)
    = (id <$> db a) ++ extra /\
    stats (foldl (fun a e => audit_file w force now e.1 e.2 a) a l) !!! "new_files"
    = (stats a !!! "new_files" + length extra)%nat.
Proof.
  revert a. induction l as [|e l IH]; intros a; simpl.
  - exists []. rewrite app_nil_r. split; [done | simpl; lia].
  - destruct (IH (audit_file w force now e.1 e.2 a)) as (x2 & Hid2 & Hn2).
    destruct (audit_file_ids w force now e.1 e.2 a) as (x1 & Hid1 & Hn1).
    exists (x1 ++ x2). rewrite Hid2, Hid1, Hn2, Hn1, <- app_assoc, length_app.
    split; [done | lia].
Qed.

Lemma reconcile_ids w target now a :
  id <$> db (reconcile w target now a) = id <$> db a.
Proof.
  unfold reconcile. rewrite reconcile_fold_db, <- list_fmap_compose.
  apply list_fmap_ext. intros _ r _. simpl. by case_bool_decide.
Qed.

(** X3: a run never deletes or renumbers a row.  The ids after the run are
    the ids before it, in the same order, followed by one fresh id for each
    file counted as new; so the table grows by exactly [new_files] rows. *)
Theorem audit_only_appends_rows (w : World) (database : option Table)
    (target_dir : string) (force_rehash : bool) (current_time : Z) (a : Audit) :
  (run_audit w database target_dir force_rehash current_time).2 = Some a ->
  (run_audit w database target_dir force_rehash current_time).1 = Some (db a) /\
  (exists extra,
     id <$> db a = (id <$> init_db database) ++ extra /\
     length extra = stats a !!! "new_files") /\
  length (db a) = (length (init_db database) + stats a !!! "new_files")%nat.
Proof.
  unfold run_audit. destruct (negb (os_path_isdir w target_dir)); [done|].
  simpl. intros [= <-]. split; [done|]. rewrite traverse_flat.
  destruct (pass_ids w force_rehash current_time (walk_entries w target_dir)
              (mkAudit (init_db database) new_stats [] [] [])) as (extra & Hid & Hn).
  simpl in Hid, Hn.
  assert (length extra
          = stats (reconcile w target_dir current_time
              (foldl (fun a e => audit_file w force_rehash current_time e.1 e.2 a)
                 (mkAudit (init_db database) new_stats [] [] [])
                 (walk_entries w target_dir))) !!! "new_files") as Hlen.
  { rewrite reconcile_other_counters by done. rewrite Hn. by vm_compute. }
  split.
  - exists extra. split; [|done]. by rewrite reconcile_ids.
  - rewrite <- Hlen, <- (length_fmap id (db _)), reconcile_ids, Hid.
    by rewrite length_app, length_fmap.
Qed.

(** Auditing "/data", where one unknown file turned up beside a stored row
    of other content. *)
Lemma audit_only_appends_rows_witness :
  exists a,
    (run_audit rotten_world (Some [rec_A]) "/data" false 8000).2 = Some a /\
    (id <$> db a = [1; 2]) /\
    length (db a) = (length (init_db (Some [rec_A])) + stats a !!! "new_files")%nat.
Proof.
  eexists. split; [reflexivity|].
  destruct (audit_only_appends_rows rotten_world (Some [rec_A]) "/data" false 8000 _
              eq_refl) as (_ & _ & Hlen).
  split; [vm_compute; reflexivity | exact Hlen].
Defined.

(** ** Which files a run opens *)

Lemma audit_file_opened w force now root file a :
  let p := os_path_join root file in
  let a' := audit_file w force now root file a in
  (opened a' = opened a /\
   ((should_exclude (CONFIG w) p = true /\
     stats a' !!! "skipped_unchanged" = stats a !!! "skipped_unchanged") \/
    (should_exclude (CONFIG w) p = false /\ os_stat w p = None /\
     stats a' !!! "skipped_unchanged" = stats a !!! "skipped_unchanged") \/
    force = false)) \/
  (opened a' = opened a ++ [p] /\ should_exclude (CONFIG w) p = false /\
   is_Some (os_stat w p) /\
   stats a' !!! "skipped_unchanged" = stats a !!! "skipped_unchanged").
Proof.
  intros p a'. subst p a'.
  destruct (audit_file_shape w force now root file a)
    as [[Hex ->] | [(Hex & Hst & ->) | [(Hex & Hf & Hst & t & _ & ->)
       | (Hex & Hst & k & t & Hk & ->)]]]; simpl.
  - left. tauto.
  - left. split; [done|]. right. left. by rewrite !incr_lookup.
  - left. tauto.
  - right. split_and!; try done.
    destruct Hk as [[_ Hk] | [_ ->]].
    + split_counter Hk; by rewrite !incr_lookup.
    + by rewrite !incr_lookup.
Qed.

Lemma pass_opened w force now (l : list (string * string)) a :
  exists os,
    opened (foldl (fun a e => audit_file w force now e.1 e.2 a) a l) = opened a ++ os /\
    os `sublist_of` kept_paths w l /\
    (force = true ->
     os = filter (fun p => is_Some (os_stat w p)) (kept_paths w l) /\
     stats (foldl (fun a e => audit_file w force now e.1 e.2 a) a l) !!! "skipped_unchanged"
     = stats a !!! "skipped_unchanged").
Proof.
  revert a. induction l as [|e l IH]; intros a; simpl.
  - exists []. rewrite app_nil_r. by split_and!.
  - destruct (IH (audit_file w force now e.1 e.2 a)) as (os & Hos & Hsub & Hforce).
    unfold kept_paths. rewrite fmap_cons, filter_cons. fold (kept_paths w l).
    destruct (audit_file_opened w force now e.1 e.2 a)
      as [[Ho Hwhy] | (Ho & Hex & Hst & Hsk)].
    + exists os. rewrite Hos, Ho. split; [done|]. split.
      * case_decide; [by apply sublist_cons | done].
      * intros Hf. destruct (Hforce Hf) as [-> Hsk]. rewrite Hsk.
        destruct Hwhy as [[Hex Hsk'] | [(Hex & Hst & Hsk') | ?]]; [| |congruence].
        -- rewrite decide_False by congruence. done.
        -- rewrite decide_True by done.
           rewrite filter_cons_False; [done|]. rewrite Hst. by intros [? ?].
    + exists (os_path_join e.1 e.2 :: os). rewrite Hos, Ho, <- app_assoc.
      rewrite decide_True by done. split; [done|]. split; [by apply sublist_skip|].
      intros Hf. destruct (Hforce Hf) as [-> Hsk']. rewrite Hsk', Hsk.
      by rewrite filter_cons_True.
Qed.



(** X6: under forced re-hash no file is skipped.  [skipped_unchanged] stays
    0 and the run opens every scanned file that [os.stat] can examine, each
    once, in scan order. *)
Theorem forced_audit_opens_everything (w : World) (database : option Table)
    (target_dir : string) (current_time : Z) (a : Audit) :
  (run_audit w database target_dir true current_time).2 = Some a ->
  stats a !!! "skipped_unchanged" = 0%nat /\
  opened a = filter (fun p => is_Some (os_stat w p)) (scanned_paths w target_dir).
Proof.
  unfold run_audit. destruct (negb (os_path_isdir w target_dir)); [done|].
  simpl. intros [= <-]. rewrite traverse_flat.
  destruct (pass_opened w true current_time (walk_entries w target_dir)
              (mkAudit (init_db database) new_stats [] [] [])) as (os & Hos & _ & Hf).
  destruct (Hf eq_refl) as [-> Hsk]. simpl in Hos, Hsk. split.
  - rewrite reconcile_other_counters by done. rewrite Hsk. by vm_compute.
  - change (scanned_paths w target_dir) with (kept_paths w (walk_entries w target_dir)).
    rewrite <- Hos. unfold reconcile. apply foldl_invariant; [|done].
    intros a' mf _ <-. unfold reconcile_one. by destruct (negb _).
Qed.

(** The forced audit of "/data" opens its one file. *)
Lemma forced_audit_opens_everything_witness :
  exists a,
    (run_audit rotten_world (Some rotten_store) "/data" true 8000).2 = Some a /\
    stats a !!! "skipped_unchanged" = 0%nat /\
    opened a = ["/data/a.txt"].
Proof.
  eexists. split; [reflexivity|].
  destruct (forced_audit_opens_everything rotten_world (Some rotten_store) "/data"
              8000 _ eq_refl) as [Hsk _].
  split; [exact Hsk | reflexivity].
Defined.

(** ** What a run leaves for a file it scanned *)









(** ** Errors *)







(** * Further properties of the exclusion filter *)

(** X9: an empty string among the configured exclusions excludes every
    path, since the empty string occurs in every string. *)
Theorem empty_exclusion_excludes_all (cfg : Config) (p : string) :
  EmptyString ∈ EXCLUSIONS cfg -> should_exclude cfg p = true.
Proof.
  intros Hin. unfold should_exclude.
  assert (List.existsb (fun e => Str.contains (Str.lower e) (Str.lower p))
            (EXCLUSIONS cfg) = true) as ->; [|done].
  apply existsb_exists. exists EmptyString. split; [by apply list_elem_of_In|].
  simpl. by destruct (Str.lower p).
Qed.

Lemma empty_exclusion_excludes_all_witness :
  let cfg := {| EXCLUSIONS := [".git/"; EmptyString]; EXT_FILTER := [] |} in
  EmptyString ∈ EXCLUSIONS cfg /\ should_exclude cfg "/data/a.txt" = true.
Proof.
  intros cfg.
  assert (EmptyString ∈ EXCLUSIONS cfg) as Hin by (right; left).
  split; [exact Hin|]. exact (empty_exclusion_excludes_all cfg "/data/a.txt" Hin).
Defined.

Lemma ascii_lower_idem c : Str.ascii_lower (Str.ascii_lower c) = Str.ascii_lower c.
Proof. destruct c as [[] [] [] [] [] [] [] []]; reflexivity. Qed.

Lemma lower_idem s : Str.lower (Str.lower s) = Str.lower s.
Proof. induction s as [|c s IH]; simpl; [done|]. by rewrite ascii_lower_idem, IH. Qed.

Lemma ascii_lower_sep c : Str.ascii_lower c = sep <-> c = sep.
Proof.
  split; [|by intros ->].
  destruct c as [[] [] [] [] [] [] [] []]; vm_compute; congruence.
Qed.

Lemma ascii_lower_extsep c : Str.ascii_lower c = extsep <-> c = extsep.
Proof.
  split; [|by intros ->].
  destruct c as [[] [] [] [] [] [] [] []]; vm_compute; congruence.
Qed.

Lemma rfind_lower s c :
  (forall a, Str.ascii_lower a = c <-> a = c) ->
  Str.rfind (Str.lower s) c = Str.rfind s c.
Proof.
  intros Hc. induction s as [|a s IH]; simpl; [done|]. rewrite IH.
  case_bool_decide; [done|].
  by rewrite (bool_decide_ext _ _ (Hc a)).
Qed.

Lemma take_lower n s : Str.take n (Str.lower s) = Str.lower (Str.take n s).
Proof.
  revert s. induction n as [|n IH]; intros [|a s]; simpl; try done. by rewrite IH.
Qed.

Lemma drop_lower n s : Str.drop n (Str.lower s) = Str.lower (Str.drop n s).
Proof. revert s. induction n as [|n IH]; intros [|a s]; simpl; try done. Qed.

Lemma existsb_not_dot_lower s :
  Str.existsb (fun c => negb (bool_decide (c = extsep))) (Str.lower s)
  = Str.existsb (fun c => negb (bool_decide (c = extsep))) s.
Proof.
  induction s as [|a s IH]; simpl; [done|]. rewrite IH. f_equal. f_equal.
  apply bool_decide_ext, ascii_lower_extsep.
Qed.

Lemma splitext_lower p :
  splitext (Str.lower p) = (Str.lower (splitext p).1, Str.lower (splitext p).2).
Proof.
  unfold splitext.
  rewrite (rfind_lower p sep ascii_lower_sep), (rfind_lower p extsep ascii_lower_extsep).
  case_bool_decide; [|done].
  unfold Str.slice. rewrite drop_lower, take_lower, existsb_not_dot_lower.
  destruct (Str.existsb _ _); simpl; [|done].
  by rewrite take_lower, drop_lower.
Qed.

(** X10: the exclusion filter ignores the letter case of the path: two
    paths that differ only in the case of ASCII letters are both excluded or
    both kept. *)
Theorem should_exclude_ignores_case (cfg : Config) (p q : string) :
  Str.lower p = Str.lower q -> should_exclude cfg p = should_exclude cfg q.
Proof.
  intros Hpq. unfold should_exclude. rewrite Hpq.
  assert (Str.lower (splitext p).2 = Str.lower (splitext q).2) as ->; [|done].
  transitivity (splitext (Str.lower p)).2; [by rewrite splitext_lower|].
  by rewrite Hpq, splitext_lower.
Qed.

Lemma should_exclude_ignores_case_witness :
  Str.lower "/Pics/IMG_1.JPG" = Str.lower "/pics/img_1.jpg" /\
  should_exclude camera_config "/Pics/IMG_1.JPG"
  = should_exclude camera_config "/pics/img_1.jpg".
Proof.
  split; [reflexivity|].
  exact (should_exclude_ignores_case camera_config "/Pics/IMG_1.JPG" "/pics/img_1.jpg"
           eq_refl).
Defined.

(** X11: only lower-case entries of the extension allow-list can let a file
    through.  If the allow-list is non-empty and none of its entries is
    spelled in lower case, every path is excluded. *)
Theorem uppercase_allow_list_excludes_all (cfg : Config) (p : string) :
  EXT_FILTER cfg <> [] ->
  (forall e, e ∈ EXT_FILTER cfg -> Str.lower e <> e) ->
  should_exclude cfg p = true.
Proof.
  intros Hne Hup. unfold should_exclude.
  destruct (List.existsb _ _); [done|].
  destruct (EXT_FILTER cfg) as [|x l] eqn:Hf; [done|].
  case_bool_decide as Hin; [|done].
  exfalso. apply (Hup _ Hin), lower_idem.
Qed.

Lemma uppercase_allow_list_excludes_all_witness :
  let cfg := {| EXCLUSIONS := []; EXT_FILTER := [".JPG"] |} in
  EXT_FILTER cfg <> [] /\
  (forall e, e ∈ EXT_FILTER cfg -> Str.lower e <> e) /\
  should_exclude cfg "/pics/IMG_1.JPG" = true /\
  should_exclude cfg "/pics/img_1.jpg" = true.
Proof.
  intros cfg.
  assert (EXT_FILTER cfg <> []) as Hne by discriminate.
  assert (forall e, e ∈ EXT_FILTER cfg -> Str.lower e <> e) as Hup.
  { intros e He. apply list_elem_of_singleton in He as ->. discriminate. }
  split; [exact Hne|]. split; [exact Hup|]. split.
  - exact (uppercase_allow_list_excludes_all cfg "/pics/IMG_1.JPG" Hne Hup).
  - exact (uppercase_allow_list_excludes_all cfg "/pics/img_1.jpg" Hne Hup).
Defined.

(** * Further properties of the duplicate analysis *)

Lemma group_files_row t target h p :
  p ∈ files (group_of t target h) ->
  exists r, r ∈ t /\ file_path r = p /\ sha256_hash r = h.
Proof.
  cbn [files group_of]. rewrite elem_of_elements, elem_of_list_to_set.
  intros ((p' & sz) & -> & Hm)%list_elem_of_fmap.
  apply members_spec in Hm as (r & Hr & Hp & _ & Hh & _). eauto.
Qed.

(** X12: the groups of a report are disjoint and real.  On a table that
    satisfies the schema, every reported group lists at least two paths, no
    path twice, and no path appears in two groups. *)
Theorem duplicate_groups_are_disjoint (database : option Table)
    (target_dir : string) (known_data : option (list KnownItem)) :
  table_ok (init_db database) ->
  let report := (find_duplicates database target_dir known_data).2 in
  (forall g, g ∈ result report -> NoDup (files g) /\ (2 <= length (files g))%nat) /\
  (forall g1 g2 p, g1 ∈ result report -> g2 ∈ result report ->
                   p ∈ files g1 -> p ∈ files g2 -> g1 = g2).
Proof.
  intros [_ Hnd] report. split.
  - intros g Hg. apply find_duplicates_result in Hg as (h & [_ Hlen] & ->). split.
    + cbn [files group_of]. apply NoDup_elements.
    + rewrite group_files_length by done. lia.
  - intros g1 g2 p Hg1 Hg2 Hp1 Hp2.
    apply find_duplicates_result in Hg1 as (h1 & _ & ->).
    apply find_duplicates_result in Hg2 as (h2 & _ & ->).
    apply group_files_row in Hp1 as (r1 & Hr1 & Hrp1 & <-).
    apply group_files_row in Hp2 as (r2 & Hr2 & Hrp2 & <-).
    assert (r1 = r2) as -> by (apply (NoDup_fmap_eq file_path (init_db database));
                               congruence).
    done.
Qed.

Lemma duplicate_groups_are_disjoint_witness :
  table_ok (init_db (Some store_ABC)) /\
  forall g, g ∈ result (find_duplicates (Some store_ABC) "/data" None).2 ->
            NoDup (files g) /\ (2 <= length (files g))%nat.
Proof.
  assert (table_ok (init_db (Some store_ABC))) as Hok.
  { apply (bool_decide_unpack _). vm_compute. exact I. }
  split; [exact Hok|].
  exact (proj1 (duplicate_groups_are_disjoint (Some store_ABC) "/data" None Hok)).
Defined.

(** X13: known duplicates only take groups away.  Every group reported
    with a known-duplicates input is reported, unchanged, without it; and a
    hash for which the input has no entry is reported exactly as without
    it. *)
Theorem known_duplicates_only_remove (database : option Table)
    (target_dir : string) (known_data : option (list KnownItem)) (g : DupGroup) :
  (g ∈ result (find_duplicates database target_dir known_data).2 ->
   g ∈ result (find_duplicates database target_dir None).2) /\
  (load_known_dupes known_data !! hash g = None ->
   g ∈ result (find_duplicates database target_dir None).2 ->
   g ∈ result (find_duplicates database target_dir known_data).2).
Proof.
  split.
  - intros (h & [_ Hlen] & ->)%find_duplicates_result.
    apply find_duplicates_result. exists h. split; [|done].
    by apply reported_without_known.
  - intros Hnone (h & [_ Hlen] & ->)%find_duplicates_result.
    apply find_duplicates_result. exists h. split; [|done].
    split; [|done]. unfold known_covers. cbn [hash group_of] in Hnone.
    by rewrite Hnone.
Qed.




Lemma dup_fold_count t target known l acc :
  duplicate_count (foldl (dup_step t target known) acc l)
  = (duplicate_count acc
     + foldr (fun h s => length (members t target h) - 1 + s) 0
         (filter (reported known t target) l.*1))%nat.
Proof.
  revert acc. induction l as [|d l IH]; intros acc; simpl; [lia|].
  rewrite IH, dup_step_unfold, filter_cons.
  case_decide; simpl; [|reflexivity]. symmetry. apply Nat.add_assoc.
Qed.

(** X15: the logged count of duplicate files.  On a table that satisfies
    the schema, [duplicate_count] plus the number of reported groups is the
    number of paths the report lists: each group contributes all its files but
    one. *)
Theorem duplicate_count_is_files_minus_groups (database : option Table)
    (target_dir : string) (known_data : option (list KnownItem)) :
  table_ok (init_db database) ->
  let report := (find_duplicates database target_dir known_data).2 in
  (duplicate_count report + length (result report))%nat
  = length (concat (files <$> result report)).
Proof.
  intros [_ Hnd] report. subst report. unfold find_duplicates. cbn [snd].
  rewrite dup_fold_count, dup_fold_result. cbn [result duplicate_count app].
  set (l := filter _ _).
  assert (forall h, h ∈ l -> (1 < length (members (init_db database) target_dir h))%nat)
    as Hl.
  { intros h Hh. subst l. by apply list_elem_of_filter in Hh as [[_ ?] _]. }
  clearbody l. induction l as [|h l IH]; [done|].
  rewrite !fmap_cons. cbn [foldr concat length]. rewrite length_app.
  rewrite group_files_length by done.
  assert (1 < length (members (init_db database) target_dir h))%nat by (apply Hl; by left).
  specialize (IH (fun h' Hh' => Hl h' (list_elem_of_further _ _ _ Hh'))).
  simpl in IH. lia.
Qed.

Lemma duplicate_count_is_files_minus_groups_witness :
  table_ok (init_db (Some store_ABC)) /\
  (duplicate_count (find_duplicates (Some store_ABC) "/data" None).2
   + length (result (find_duplicates (Some store_ABC) "/data" None).2))%nat
  = length (concat (files <$> result (find_duplicates (Some store_ABC) "/data" None).2)).
Proof.
  assert (table_ok (init_db (Some store_ABC))) as Hok.
  { apply (bool_decide_unpack _). vm_compute. exact I. }
  split; [exact Hok|].
  exact (duplicate_count_is_files_minus_groups (Some store_ABC) "/data" None Hok).
Defined.

(** * The extension report *)

Lemma counter_get_incr k k' c :
  counter_get k (counter_incr k' c)
  = if decide (k = k') then S (counter_get k c) else counter_get k c.
Proof.
  induction c as [|[k0 n] c IH]; simpl.
  - case_bool_decide; by case_decide.
  - destruct (decide (k' = k0)) as [-> | Hne].
    + rewrite bool_decide_eq_true_2 by done. simpl.
      case_bool_decide; case_decide; congruence.
    + rewrite (bool_decide_eq_false_2 (k' = k0)) by done. simpl. rewrite IH.
      case_bool_decide; case_decide; congruence.
Qed.

Lemma counter_incr_keys k c :
  (counter_incr k c).*1 = if decide (k ∈ c.*1) then c.*1 else c.*1 ++ [k].
Proof.
  induction c as [|[k0 n] c IH]; [done|]. cbn [counter_incr].
  case_bool_decide as Hk.
  - subst. rewrite !fmap_cons. cbn [fst]. rewrite decide_True; [done | by left].
  - rewrite !fmap_cons, IH. cbn [fst]. destruct (decide (k ∈ c.*1)) as [Hin | Hin].
    + rewrite decide_True; [done | by right].
    + rewrite decide_False; [done|]. by intros [? | ?]%elem_of_cons.
Qed.

Lemma counter_incr_sum k c :
  sum_list (counter_incr k c).*2 = S (sum_list c.*2).
Proof.
  induction c as [|[k0 n] c IH]; [done|]. cbn [counter_incr].
  case_bool_decide; rewrite !fmap_cons; cbn [snd sum_list sum_list_with]; [done|].
  rewrite IH. lia.
Qed.

Lemma counter_incr_positive k c :
  Forall (fun kn => (0 < kn.2)%nat) c ->
  Forall (fun kn => (0 < kn.2)%nat) (counter_incr k c).
Proof.
  induction 1 as [|[k0 n] c Hn Hc IH]; simpl.
  - repeat constructor.
  - case_bool_decide; constructor; simpl in *; try done; lia.
Qed.

(** The counter after counting the files [files] on top of [st]. *)
Lemma count_files_spec (files : list string) (st : nat * Counter) :
  let st' := foldl (fun (st : nat * Counter) file =>
                      (S st.1, counter_incr (extension_key file) st.2)) st files in
  st'.1 = (st.1 + length files)%nat /\
  sum_list st'.2.*2 = (sum_list st.2.*2 + length files)%nat /\
  (forall k, counter_get k st'.2
             = (counter_get k st.2
                + length (filter (fun f => extension_key f = k) files))%nat) /\
  (NoDup st.2.*1 -> NoDup st'.2.*1) /\
  (Forall (fun kn => (0 < kn.2)%nat) st.2 -> Forall (fun kn => (0 < kn.2)%nat) st'.2).
Proof.
  revert st. induction files as [|f files IH]; intros st; simpl.
  - split_and!; try done; intros; lia.
  - destruct (IH (S st.1, counter_incr (extension_key f) st.2))
      as (H1 & H2 & H3 & H4 & H5). simpl in *.
    split_and!.
    + lia.
    + rewrite H2, counter_incr_sum. lia.
    + intros k. rewrite H3, counter_get_incr, filter_cons.
      destruct (decide (k = extension_key f)) as [-> | Hne].
      * rewrite decide_True by done. simpl. lia.
      * rewrite decide_False by congruence. lia.
    + intros Hnd. apply H4. rewrite counter_incr_keys. case_decide; [done|].
      apply NoDup_app. split; [done|]. split; [|apply NoDup_singleton].
      intros k Hk ->%list_elem_of_singleton. done.
    + intros Hpos. by apply H5, counter_incr_positive.
Qed.

Lemma scan_extensions_spec w target_dir :
  let st := scan_extensions w target_dir in
  st.1 = length (walked_files w target_dir) /\
  sum_list st.2.*2 = length (walked_files w target_dir) /\
  (forall k, counter_get k st.2
             = length (filter (fun f => extension_key f = k) (walked_files w target_dir))) /\
  NoDup st.2.*1 /\ Forall (fun kn => (0 < kn.2)%nat) st.2.
Proof.
  unfold scan_extensions, walked_files.
  assert (forall (l : list (string * list string)) (st : nat * Counter),
            let st' := foldl (fun st (rf : string * list string) =>
                                foldl (fun (st : nat * Counter) file =>
                                         (S st.1, counter_incr (extension_key file) st.2))
                                      st rf.2) st l in
            st'.1 = (st.1 + length (concat (snd <$> l)))%nat /\
            sum_list st'.2.*2 = (sum_list st.2.*2 + length (concat (snd <$> l)))%nat /\
            (forall k, counter_get k st'.2
                       = (counter_get k st.2
                          + length (filter (fun f => extension_key f = k)
                                      (concat (snd <$> l))))%nat) /\
            (NoDup st.2.*1 -> NoDup st'.2.*1) /\
            (Forall (fun kn => (0 < kn.2)%nat) st.2 ->
             Forall (fun kn => (0 < kn.2)%nat) st'.2)) as Hgen.
  { induction l as [|[root files] l IH]; intros st.
    - simpl. split_and!; try done; intros; lia.
    - rewrite fmap_cons. cbn [foldl concat snd].
      destruct (count_files_spec files st) as (F1 & F2 & F3 & F4 & F5).
      destruct (IH (foldl (fun (st : nat * Counter) file =>
                             (S st.1, counter_incr (extension_key file) st.2)) st files))
        as (H1 & H2 & H3 & H4 & H5).
      cbv zeta in *. split_and!.
      + rewrite H1, F1, length_app. lia.
      + rewrite H2, F2, length_app. lia.
      + intros k. rewrite H3, F3, filter_app, length_app. lia.
      + intros Hnd. by apply H4, F4.
      + intros Hpos. by apply H5, F5. }
  destruct (Hgen (os_walk w target_dir) (0%nat, [])) as (H1 & H2 & H3 & H4 & H5).
  simpl in *. split_and!; try done.
  - apply H4. constructor.
  - apply H5. constructor.
Qed.

Lemma insert_by_count_perm x l : insert_by_count x l ≡ₚ x :: l.
Proof.
  induction l as [|y l IH]; simpl; [done|].
  case_bool_decide; [done|]. rewrite IH. apply perm_swap.
Qed.

Lemma most_common_perm c : most_common c ≡ₚ c.
Proof.
  induction c as [|x c IH]; simpl; [done|].
  by rewrite insert_by_count_perm, IH.
Qed.

Lemma insert_by_count_sorted x l :
  StronglySorted (fun a b : string * nat => (b.2 <= a.2)%nat) l ->
  StronglySorted (fun a b : string * nat => (b.2 <= a.2)%nat) (insert_by_count x l).
Proof.
  induction 1 as [|y l Hl IH Hy]; simpl.
  - repeat constructor.
  - case_bool_decide as Hle.
    + constructor; [by constructor|]. constructor; [done|].
      eapply Forall_impl; [exact Hy|]. simpl. intros. lia.
    + constructor; [done|].
      rewrite insert_by_count_perm. constructor; [lia | done].
Qed.

Lemma most_common_sorted c :
  StronglySorted (fun a b : string * nat => (b.2 <= a.2)%nat) (most_common c).
Proof.
  induction c as [|x c IH]; simpl; [constructor | by apply insert_by_count_sorted].
Qed.

Lemma insert_by_count_ties n x l :
  filter (fun kn : string * nat => kn.2 = n) (insert_by_count x l)
  = filter (fun kn : string * nat => kn.2 = n) (x :: l).
Proof.
  induction l as [|y l IH]; simpl; [done|].
  case_bool_decide as Hle; [done|].
  rewrite (filter_cons _ y), IH, !filter_cons.
  destruct (decide (x.2 = n)), (decide (y.2 = n)); try done. lia.
Qed.

Lemma most_common_ties n c :
  filter (fun kn : string * nat => kn.2 = n) (most_common c)
  = filter (fun kn : string * nat => kn.2 = n) c.
Proof.
  induction c as [|x c IH]; simpl; [done|].
  by rewrite insert_by_count_ties, !filter_cons, IH.
Qed.

Lemma counter_get_elem k n (c : Counter) :
  NoDup c.*1 -> Forall (fun kn => (0 < kn.2)%nat) c ->
  (k, n) ∈ c <-> counter_get k c = n /\ (0 < n)%nat.
Proof.
  induction c as [|[k0 n0] c IH]; intros Hnd Hpos.
  - simpl. split; [by intros ?%elem_of_nil | lia].
  - rewrite fmap_cons in Hnd. apply NoDup_cons in Hnd as [Hk0 Hnd].
    apply Forall_cons in Hpos as [Hn0 Hpos]. simpl in *.
    rewrite elem_of_cons, (IH Hnd Hpos). case_bool_decide as Hk.
    + subst k0. split.
      * intros [[= ->] | [Hget Hn]]; [done|].
        exfalso. apply Hk0. apply list_elem_of_fmap. exists (k, n). split; [done|].
        by apply (IH Hnd Hpos).
      * intros [-> _]. by left.
    + split; [|tauto]. intros [[= -> ->] | ?]; done.
Qed.

(** X16: the extension report adds up.  When [main] gets as far as the
    report, the total it prints is the number of file names [os.walk] listed
    under the target, and the counts of all rows sum to that total. *)
Theorem extension_report_adds_up (w : World) (argv : list string)
    (rep : ExtensionReport) :
  find_extensions_main w argv = Some rep ->
  os_path_isdir w (report_target rep) = true /\
  report_total rep = length (walked_files w (report_target rep)) /\
  sum_list (report_rows rep).*2 = report_total rep.
Proof.
  unfold find_extensions_main.
  destruct argv as [|script [|target_dir rest]]; [done | done |].
  destruct (os_path_isdir w target_dir) eqn:Hdir; [|done]. simpl.
  intros [= <-]. simpl.
  destruct (scan_extensions_spec w target_dir) as (H1 & H2 & _).
  split_and!; [done | done |].
  rewrite (most_common_perm (scan_extensions w target_dir).2). congruence.
Qed.

Lemma extension_report_adds_up_witness :
  exists rep,
    find_extensions_main photo_world ["find_extensions.py"; "/pics"] = Some rep /\
    report_file rep = "extension_report.log" /\
    report_total rep = 6%nat /\
    sum_list (report_rows rep).*2 = report_total rep.
Proof.
  eexists. split; [reflexivity|]. split; [reflexivity|]. split; [reflexivity|].
  exact (proj2 (proj2 (extension_report_adds_up photo_world
                         ["find_extensions.py"; "/pics"] _ eq_refl))).
Defined.

(** X17: the rows of the extension report.  Every key has one row; a pair
    is a row exactly when its count is positive and is the number of walked
    file names with that key. *)
Theorem extension_report_rows (w : World) (argv : list string)
    (rep : ExtensionReport) :
  find_extensions_main w argv = Some rep ->
  NoDup (report_rows rep).*1 /\
  forall k n,
    (k, n) ∈ report_rows rep <->
    (0 < n)%nat /\
    n = length (filter (fun f => extension_key f = k)
                  (walked_files w (report_target rep))).
Proof.
  unfold find_extensions_main.
  destruct argv as [|script [|target_dir rest]]; [done | done |].
  destruct (os_path_isdir w target_dir) eqn:Hdir; [|done]. simpl.
  intros [= <-]. simpl.
  destruct (scan_extensions_spec w target_dir) as (_ & _ & H3 & H4 & H5).
  split.
  - by rewrite (most_common_perm (scan_extensions w target_dir).2).
  - intros k n. rewrite (most_common_perm (scan_extensions w target_dir).2).
    rewrite (counter_get_elem k n _ H4 H5), H3. split; intros [? ?]; done.
Qed.

Lemma extension_report_rows_witness :
  exists rep,
    find_extensions_main photo_world ["find_extensions.py"; "/pics"; "out.log"]
    = Some rep /\
    report_file rep = "out.log" /\
    NoDup (report_rows rep).*1 /\
    (".jpg", 3%nat) ∈ report_rows rep.
Proof.
  eexists. split; [reflexivity|]. split; [reflexivity|].
  destruct (extension_report_rows photo_world
              ["find_extensions.py"; "/pics"; "out.log"] _ eq_refl) as [Hnd Hrows].
  split; [exact Hnd|]. apply Hrows. split; [lia | reflexivity].
Defined.

(** X18: the order of the extension report.  The rows are the counted
    pairs sorted by falling count; rows with equal counts keep the order in
    which their keys were first counted; and the console list is the first
    fifteen rows. *)
Theorem extension_report_order (w : World) (argv : list string)
    (rep : ExtensionReport) :
  find_extensions_main w argv = Some rep ->
  report_rows rep ≡ₚ (scan_extensions w (report_target rep)).2 /\
  StronglySorted (fun a b : string * nat => (b.2 <= a.2)%nat) (report_rows rep) /\
  (forall n, filter (fun kn : string * nat => kn.2 = n) (report_rows rep)
             = filter (fun kn : string * nat => kn.2 = n)
                 (scan_extensions w (report_target rep)).2) /\
  report_top rep = take 15 (report_rows rep).
Proof.
  unfold find_extensions_main.
  destruct argv as [|script [|target_dir rest]]; [done | done |].
  destruct (os_path_isdir w target_dir) eqn:Hdir; [|done]. simpl.
  intros [= <-]. simpl. split_and!.
  - apply most_common_perm.
  - apply most_common_sorted.
  - intros n. apply most_common_ties.
  - done.
Qed.

Lemma extension_report_order_witness :
  exists rep,
    find_extensions_main photo_world ["find_extensions.py"; "/pics"] = Some rep /\
    report_rows rep = [(".jpg", 3%nat); ("<no_extension>", 2%nat); (".png", 1%nat)] /\
    StronglySorted (fun a b : string * nat => (b.2 <= a.2)%nat) (report_rows rep).
Proof.
  eexists. split; [reflexivity|]. split; [reflexivity|].
  exact (proj1 (proj2 (extension_report_order photo_world
                         ["find_extensions.py"; "/pics"] _ eq_refl))).
Defined.

Lemma rfind_drop s c :
  0 <= Str.rfind s c ->
  exists rest, Str.drop (Z.to_nat (Str.rfind s c)) s = String c rest.
Proof.
  induction s as [|a s IH]; simpl; [lia|].
  case_bool_decide as Hr.
  - intros _. destruct (IH Hr) as [rest Hrest]. exists rest.
    replace (Z.to_nat (1 + Str.rfind s c)) with (S (Z.to_nat (Str.rfind s c))) by lia.
    done.
  - case_bool_decide as Ha; [|lia]. intros _. subst. by exists s.
Qed.

Lemma rfind_lower_bound s c : -1 <= Str.rfind s c.
Proof.
  induction s as [|a s IH]; simpl; [lia|].
  case_bool_decide; [lia|]. case_bool_decide; lia.
Qed.

Lemma rfind_absent s c :
  Str.contains (String c EmptyString) s = false -> Str.rfind s c = -1.
Proof.
  induction s as [|a s IH]; simpl; [done|].
  intros H. apply orb_false_iff in H as [Ha Hs]. rewrite (IH Hs).
  rewrite bool_decide_eq_false_2 by lia.
  rewrite andb_true_r in Ha. apply bool_decide_eq_false in Ha.
  by rewrite bool_decide_eq_false_2 by congruence.
Qed.

Lemma splitext_ext_dot p :
  (splitext p).2 = EmptyString \/ exists rest, (splitext p).2 = String extsep rest.
Proof.
  unfold splitext. case_bool_decide as Hgt; [|by left].
  destruct (Str.existsb _ _); [|by left]. right. simpl.
  apply rfind_drop. pose proof (rfind_lower_bound p sep). lia.
Qed.

Lemma lower_cons_dot rest : Str.lower (String extsep rest) = String extsep (Str.lower rest).
Proof. done. Qed.

(** X19: the keys of the extension report.  A file is counted under the
    marker "<no_extension>" exactly when [os.path.splitext] gives it no
    extension; every other key starts with a dot, so no extension can be
    confused with the marker; every key is in lower case; and a name that is
    one dot followed by dot-free text, like ".hidden", has no extension. *)
Theorem extension_key_shape (file : string) :
  (extension_key file = "<no_extension>" <-> (splitext file).2 = EmptyString) /\
  (extension_key file = "<no_extension>" \/
   exists rest, extension_key file = String extsep rest) /\
  Str.lower (extension_key file) = extension_key file /\
  (forall rest,
     file = String extsep rest ->
     Str.contains (String extsep EmptyString) rest = false ->
     Str.contains (String sep EmptyString) rest = false ->
     extension_key file = "<no_extension>").
Proof.
  unfold extension_key.
  destruct (splitext_ext_dot file) as [Hnone | [rest Hrest]].
  - rewrite Hnone. simpl. split_and!; [done | by left | done | done].
  - rewrite Hrest. rewrite bool_decide_eq_false_2 by done.
    rewrite lower_cons_dot. split_and!.
    + split; intros H; discriminate.
    + right. eauto.
    + rewrite lower_cons_dot. by rewrite lower_idem.
    + intros rest' -> Hdot Hsep. exfalso. revert Hrest. unfold splitext. simpl.
      rewrite (rfind_absent rest' extsep Hdot), (rfind_absent rest' sep Hsep).
      simpl. discriminate.
Qed.

Lemma extension_key_shape_witness :
  extension_key ".hidden" = "<no_extension>" /\
  extension_key "archive.tar.GZ" = ".gz".
Proof.
  split; [|reflexivity].
  exact (proj2 (proj2 (proj2 (extension_key_shape ".hidden"))) "hidden"
           eq_refl eq_refl eq_refl).
Defined.

(** * The rmlint report *)

Lemma group_get_append k k' x g :
  group_get k (group_append k' x g)
  = if decide (k = k') then group_get k g ++ [x] else group_get k g.
Proof.
  induction g as [|[k0 xs] g IH]; simpl.
  - case_bool_decide; by case_decide.
  - destruct (decide (k' = k0)) as [-> | Hne].
    + rewrite bool_decide_eq_true_2 by done. simpl.
      case_bool_decide; case_decide; congruence.
    + rewrite (bool_decide_eq_false_2 (k' = k0)) by done. simpl. rewrite IH.
      case_bool_decide; case_decide; congruence.
Qed.

Lemma group_append_keys k x g :
  (group_append k x g).*1 = if decide (k ∈ g.*1) then g.*1 else g.*1 ++ [k].
Proof.
  induction g as [|[k0 xs] g IH]; [done|]. cbn [group_append].
  case_bool_decide as Hk.
  - subst. rewrite !fmap_cons. cbn [fst]. rewrite decide_True; [done | by left].
  - rewrite !fmap_cons, IH. cbn [fst]. destruct (decide (k ∈ g.*1)) as [Hin | Hin].
    + rewrite decide_True; [done | by right].
    + rewrite decide_False; [done|]. by intros [? | ?]%elem_of_cons.
Qed.

Lemma group_append_nonempty k x g :
  Forall (fun kv : string * list RmItem => kv.2 <> []) g ->
  Forall (fun kv : string * list RmItem => kv.2 <> []) (group_append k x g).
Proof.
  induction 1 as [|[k0 xs] g Hx Hg IH]; simpl.
  - repeat constructor. done.
  - case_bool_decide; constructor; simpl in *; try done. by destruct xs.
Qed.

Lemma collect_groups_spec data :
  (forall k, group_get k (collect_groups data) = items_of k data) /\
  NoDup (collect_groups data).*1 /\
  Forall (fun kv : string * list RmItem => kv.2 <> []) (collect_groups data).
Proof.
  induction data as [|it data (Hget & Hnd & Hne)] using rev_ind.
  - split_and!; [done | constructor | constructor].
  - unfold collect_groups in *. rewrite foldl_app. cbn [foldl].
    unfold items_of in *.
    destruct (rm_checksum it) as [c|] eqn:Hc; [destruct (rm_path it) as [p|] eqn:Hp|].
    + split_and!.
      * intros k. rewrite group_get_append, filter_app, Hget, filter_cons, filter_nil.
        destruct (decide (k = c)) as [-> | Hk].
        -- rewrite decide_True; [done|]. rewrite Hc, Hp. eauto.
        -- rewrite decide_False; [by rewrite app_nil_r|]. rewrite Hc. intros [[= ?] _]. done.
      * rewrite group_append_keys. case_decide; [done|].
        apply NoDup_app. split; [done|]. split; [|apply NoDup_singleton].
        intros k Hk ->%list_elem_of_singleton. done.
      * by apply group_append_nonempty.
    + split_and!; [|done|done]. intros k.
      rewrite filter_app, Hget, filter_cons, filter_nil.
      rewrite decide_False; [by rewrite app_nil_r|]. rewrite Hp. by intros [_ [? ?]].
    + split_and!; [|done|done]. intros k.
      rewrite filter_app, Hget, filter_cons, filter_nil.
      rewrite decide_False; [by rewrite app_nil_r|]. rewrite Hc. by intros [? _].
Qed.

Lemma group_get_elem k xs (g : list (string * list RmItem)) :
  NoDup g.*1 -> Forall (fun kv : string * list RmItem => kv.2 <> []) g ->
  (k, xs) ∈ g <-> group_get k g = xs /\ xs <> [].
Proof.
  induction g as [|[k0 xs0] g IH]; intros Hnd Hne.
  - simpl. split; [by intros ?%elem_of_nil | by intros [<- ?]].
  - rewrite fmap_cons in Hnd. apply NoDup_cons in Hnd as [Hk0 Hnd].
    apply Forall_cons in Hne as [Hx0 Hne]. simpl in *.
    rewrite elem_of_cons, (IH Hnd Hne). case_bool_decide as Hk.
    + subst k0. split.
      * intros [[= ->] | [Hget Hn]]; [done|].
        exfalso. apply Hk0. apply list_elem_of_fmap. exists (k, xs). split; [done|].
        by apply (IH Hnd Hne).
      * intros [-> _]. by left.
    + split; [|tauto]. intros [[= -> ->] | ?]; done.
Qed.

(** X20: what [parse_rmlint_report] returns.  Each checksum has at most one
    group; a group is returned for a checksum exactly when more than one
    element of the input carries that checksum together with a path; and the
    group holds exactly those elements, in the order of the input.  Elements
    without checksum or without path are in no group. *)
Theorem parse_rmlint_report_groups (data : list RmItem) :
  NoDup (parse_rmlint_report data).*1 /\
  (forall k xs,
     (k, xs) ∈ parse_rmlint_report data <->
     xs = items_of k data /\ (1 < length xs)%nat) /\
  (forall k xs it,
     (k, xs) ∈ parse_rmlint_report data -> it ∈ xs ->
     it ∈ data /\ rm_checksum it = Some k /\ is_Some (rm_path it)).
Proof.
  destruct (collect_groups_spec data) as (Hget & Hnd & Hne).
  assert (forall k xs,
            (k, xs) ∈ parse_rmlint_report data <->
            xs = items_of k data /\ (1 < length xs)%nat) as Hiff.
  { intros k xs. unfold parse_rmlint_report.
    rewrite list_elem_of_filter, (group_get_elem k xs _ Hnd Hne), Hget. simpl.
    split.
    - intros (? & ? & ?). done.
    - intros [-> Hlen]. split_and!; try done. intros Heq. rewrite Heq in Hlen.
      simpl in Hlen. lia. }
  split_and!.
  - unfold parse_rmlint_report.
    apply (sublist_NoDup _ (collect_groups data).*1); [done|].
    apply fmap_sublist, sublist_filter.
  - exact Hiff.
  - intros k xs it Hin Hit. apply Hiff in Hin as [-> _].
    unfold items_of in Hit. apply list_elem_of_filter in Hit. tauto.
Qed.

Example parse_rmlint_sample :
  parse_rmlint_report rmlint_sample
  = [("aa", [{| rm_checksum := Some "aa"; rm_path := Some "/x/1"; item_no := 1 |};
             {| rm_checksum := Some "aa"; rm_path := Some "/y/1"; item_no := 3 |}])].
Proof. vm_compute. reflexivity. Qed.

(** * Hashes after a forced run *)







(** Known duplicates for another hash leave the group of "H" in the report. *)
Lemma known_duplicates_only_remove_witness :
  let other := Some [{| item_hash := Some "H2"; item_files := Some ["/data/c.bin"] |}] in
  let g := group_of store_ABC "/data" "H" in
  load_known_dupes other !! hash g = None /\
  g ∈ result (find_duplicates (Some store_ABC) "/data" None).2 /\
  g ∈ result (find_duplicates (Some store_ABC) "/data" other).2.
Proof.
  intros other g.
  assert (load_known_dupes other !! hash g = None) as Hnone by reflexivity.
  assert (g ∈ result (find_duplicates (Some store_ABC) "/data" None).2) as Hg.
  { apply find_duplicates_result. exists "H". split; [|done].
    apply reported_without_known. vm_compute. lia. }
  split; [exact Hnone|]. split; [exact Hg|].
  exact (proj2 (known_duplicates_only_remove (Some store_ABC) "/data" other g)
           Hnone Hg).
Defined.
